(** * TripSecretary migration scripts: a shallow embedding and its properties

    The three scripts under [scripts/] are embedded as Rocq functions:

    - [refactor_phase5.py]            -> module [Phase5]
    - [migrate_app_js_to_ts.py]       -> module [Migrate]
    - [remove_js_import_extensions.py]-> module [RemoveJs]

    Python [str] values are modelled as [string]; a character is a code
    point below 256.  Calls to [print] are not modelled: they do not change
    any value the scripts compute.  The file system is a finite map from
    paths to file contents. *)

From Stdlib Require Import Ascii String List Arith ZArith Lia Bool Sorted.
From stdpp Require Import gmap strings.
Import ListNotations.

Local Open Scope string_scope.
Local Open Scope list_scope.
Local Open Scope nat_scope.

(** ** Python string primitives *)

Module Text.

(** [str.isspace] on one character, which is also what [\s] matches in a
    [str] pattern and what [strip]/[lstrip] remove. *)
Definition is_space (c : ascii) : bool :=
  let n := nat_of_ascii c in
  ((9 <=? n) && (n <=? 13)) || ((28 <=? n) && (n <=? 32))
  || (n =? 133) || (n =? 160).

(** [s.lstrip()] *)
Fixpoint lstrip (s : string) : string :=
  match s with
  | EmptyString => EmptyString
  | String c s' => if is_space c then lstrip s' else s
  end.

(** [s.rstrip()] *)
Fixpoint rstrip (s : string) : string :=
  match s with
  | EmptyString => EmptyString
  | String c s' =>
      match rstrip s' with
      | EmptyString => if is_space c then EmptyString else String c EmptyString
      | r => String c r
      end
  end.

(** [s.strip()] *)
Definition strip (s : string) : string := lstrip (rstrip s).

(** [s.startswith(p)] *)
Definition startswith (s p : string) : bool := String.prefix p s.

(** [s.endswith(p)] *)
Definition endswith (s p : string) : bool :=
  (String.length p <=? String.length s)
  && String.eqb (substring (String.length s - String.length p) (String.length p) s) p.

(** [sub in s] *)
Fixpoint contains (sub s : string) : bool :=
  String.prefix sub s ||
  match s with
  | EmptyString => false
  | String _ s' => contains sub s'
  end.

(** [s.count(c)] for a one-character [c] *)
Fixpoint count (c : ascii) (s : string) : nat :=
  match s with
  | EmptyString => 0
  | String d s' => (if Ascii.eqb d c then 1 else 0) + count c s'
  end.

(** [''.join(l)] *)
Definition join (l : list string) : string :=
  fold_right String.append EmptyString l.

Definition newline : ascii := ascii_of_nat 10.

(** ['\n'.join(l)] *)
Fixpoint join_lines (l : list string) : string :=
  match l with
  | [] => EmptyString
  | [x] => x
  | x :: rest => x +:+ String newline (join_lines rest)
  end.

(** [s.split('\n')] *)
Fixpoint split_lines (s : string) : list string :=
  match s with
  | EmptyString => [EmptyString]
  | String c s' =>
      if Ascii.eqb c newline then EmptyString :: split_lines s'
      else match split_lines s' with
           | h :: t => String c h :: t
           | [] => [String c EmptyString]
           end
  end.

(** [l[a:b]] for [0 <= a], [0 <= b] *)
Definition slice {A} (l : list A) (a b : nat) : list A :=
  firstn (b - a) (skipn a l).

(** [l[i]] for an index in range *)
Definition line (l : list string) (i : nat) : string := nth i l EmptyString.

End Text.

(** ** scripts/refactor_phase5.py *)

Module Phase5.
Import Text.

(** A half-open interval of line indices, the tuples of [remove_ranges]. *)
Definition range : Type := nat * nat.

(** [for j in range(lo, hi): if test(j): ...; break] : the index at which
    the loop body fires, if any. *)
Definition first_from (test : nat -> bool) (lo hi : nat) : option nat :=
  find test (seq lo (hi - lo)).

(** The shape shared by twelve of the thirteen scans: an outer loop that
    stops at the first line satisfying [is_start], and an inner loop from
    the next line on that stops at the first [j] satisfying [is_end] and
    records [(start, stop j)]. *)
Record region : Type := Region {
  is_start : string -> bool;
  is_end : list string -> nat -> nat -> bool;
  stop : list string -> nat -> nat
}.

Definition locate (r : region) (lines : list string) : option range :=
  match first_from (fun i => is_start r (line lines i)) 0 (length lines) with
  | None => None
  | Some start =>
      match first_from (is_end r lines start) (start + 1) (length lines) with
      | None => None
      | Some j => Some (start, stop r lines j)
      end
  end.

(** [e in lines[j]] *)
Definition fixed_end (e : string) : list string -> nat -> nat -> bool :=
  fun lines _ j => contains e (line lines j).

(** [e in lines[j] and g in ''.join(lines[start:j])] *)
Definition guarded_end (e g : string) : list string -> nat -> nat -> bool :=
  fun lines start j =>
    contains e (line lines j) && contains g (join (slice lines start j)).

Definition through (_ : list string) (j : nat) : nat := j + 1.

(* 1 *)
Definition focus_listener : region :=
  Region (contains "// Add focus listener to reload data when returning to screen")
         (fixed_end "navigation, passport, refreshFundItems]);")
         through.
(* 2 *)
Definition blur_listener : region :=
  Region (contains "// Add blur listener to save data when leaving the screen")
         (guarded_end "}, [navigation]);" "blur")
         through.
(* 3 *)
Definition cleanup_effect : region :=
  Region (contains "// Cleanup effect (equivalent to componentWillUnmount)")
         (guarded_end "}, []);" "unmount")
         through.
(* 4 *)
Definition monitor_effect : region :=
  Region (contains "// Monitor save status changes")
         (guarded_end "}, []);" "getSaveState")
         through.
(* 5 *)
Definition entry_info_effect : region :=
  Region (contains "// Initialize entry_info when screen loads")
         (fixed_end "initializeEntryInfo]);")
         through.
(* 6 *)
Definition session_state : region :=
  Region (contains "// Session state management functions")
         (fixed_end "isLoading, scrollPosition]);")
         through.
(* 7 *)
Definition clear_user_data : region :=
  Region (contains "// Debug function to clear user data")
         (guarded_end "  };" "clearUserData")
         through.
(* 8 *)
Definition debounced_save : region :=
  Region (contains "// Create debounced save function with error handling")
         (guarded_end "  );" "debouncedSave")
         (fun lines j =>
            if (j + 1 <? length lines) && String.eqb (strip (line lines (j + 1))) EmptyString
            then j + 2 else j + 1).
(* 9 *)
Definition handle_user_interaction : region :=
  Region (contains "// Handle user interaction with tracking-enabled inputs")
         (fun lines _ j =>
            contains "debouncedSaveData]);" (line lines j)
            && contains "userInteractionTracker" (line lines j))
         through.
(* 11 *)
Definition perform_save_operation : region :=
  Region (contains "// Helper method to perform the actual save operation")
         (fun lines start j =>
            String.eqb (strip (line lines j)) "};"
            && contains "performSaveOperation" (join (slice lines start j)))
         through.
(* 12 *)
Definition save_with_override : region :=
  Region (contains "// Enhanced debug logging for personal info saving")
         (guarded_end "};" "saveDataToSecureStorageWithOverride")
         through.
(* 13 *)
Definition save_wrapper : region :=
  Region (fun l => startswith (strip l) "// Save all data to secure storage")
         (guarded_end "  };" "saveDataToSecureStorageWithOverride()")
         through.

(** 10: the [handleFieldBlur] scan.  The inner loop starts at the start
    line itself and carries [brace_count]. *)
Definition handleFieldBlur_start : string :=
  "const handleFieldBlur = async (fieldName, fieldValue) => {".

Definition open_brace : ascii := "{"%char.
Definition close_brace : ascii := "}"%char.

(** [lines[j].count('{') - lines[j].count('}')] *)
Definition brace_delta (l : string) : Z :=
  (Z.of_nat (count open_brace l) - Z.of_nat (count close_brace l))%Z.

(** The inner loop, entered at index [j] with the lines from [j] on in
    [rest]; [i] is the start line. *)
Fixpoint brace_scan (i j : nat) (brace_count : Z) (rest : list string) : option nat :=
  match rest with
  | [] => None
  | l :: rest' =>
      let brace_count := (brace_count + brace_delta l)%Z in
      if (brace_count =? 0)%Z && (i <? j)
      then Some j
      else brace_scan i (S j) brace_count rest'
  end.

(** [l.strip() == 'const handleFieldBlur = ... {'] *)
Definition is_handleFieldBlur_start (l : string) : bool :=
  String.eqb (strip l) handleFieldBlur_start.

Definition locate_handleFieldBlur (lines : list string) : option range :=
  match first_from (fun i => is_handleFieldBlur_start (line lines i))
                   0 (length lines) with
  | None => None
  | Some start =>
      match brace_scan start start 0%Z (skipn start lines) with
      | None => None
      | Some j => Some (start, j + 1)
      end
  end.

(** [brace_count] once the line [j] has been counted, in a scan that
    started at the line [start]: the opening braces on the lines
    [start..j] less the closing ones. *)
Definition counter_after (lines : list string) (start j : nat) : Z :=
  fold_left (fun acc k => (acc + brace_delta (line lines k))%Z)
            (seq start (S j - start)) 0%Z.

(** [start] is the line at which the outer loop of a scan stops. *)
Definition starts_at (is_start : string -> bool) (lines : list string)
           (start : nat) : Prop :=
  start < length lines
  /\ is_start (line lines start) = true
  /\ forall i, i < start -> is_start (line lines i) = false.

(** A handler whose body nests braces three levels deep, between two
    other lines. *)
Definition nested_handler : list string :=
  [ "  const before = 0;";
    "  const handleFieldBlur = async (fieldName, fieldValue) => {";
    "    if (fieldName) {";
    "      try {";
    "        if (fieldValue) { save({ [fieldName]: fieldValue }); }";
    "      } catch (e) {";
    "      }";
    "    }";
    "  };";
    "  const after = 1;" ].

(** The guard as the specification words it: the guard text runs from the
    start line through the line under consideration, that line
    included. *)
Definition guarded_end_inclusive (e g : string)
  : list string -> nat -> nat -> bool :=
  fun lines start j =>
    contains e (line lines j) && contains g (join (slice lines start (j + 1))).

(** A start marker was found and no later line ends the region. *)
Definition unterminated (r : region) (lines : list string) : Prop :=
  exists start,
    starts_at (is_start r) lines start
    /\ forall j, start < j < length lines -> is_end r lines start j = false.

Definition unterminated_handleFieldBlur (lines : list string) : Prop :=
  exists start,
    starts_at is_handleFieldBlur_start lines start
    /\ forall j, start < j < length lines -> counter_after lines start j <> 0%Z.

(** Sample inputs. *)
Definition one_line_cleanup : list string :=
  [ "  // Cleanup effect (equivalent to componentWillUnmount)";
    "  useEffect(() => { return unmount; }, []);";
    "  const after = 1;" ].

Definition guarded_block : list string :=
  [ "  // Cleanup effect (equivalent to componentWillUnmount)";
    "  useEffect(() => {";
    "    return () => { unmount(); };";
    "  }, []);" ].

Definition unguarded_block : list string :=
  [ "  // Cleanup effect (equivalent to componentWillUnmount)";
    "  useEffect(() => {";
    "    load();";
    "  }, []);" ].

(** The block without the guard word followed, in the same file, by the
    block that holds it. *)
Definition unguarded_then_guarded : list string :=
  unguarded_block ++ guarded_block.

Definition open_focus_listener : string :=
  join_lines
    [ "  // Add focus listener to reload data when returning to screen";
      "  const after = 1;" ].

(** A debounced save followed by a blank line. *)
Definition debounced_block : list string :=
  [ "  // Create debounced save function with error handling";
    "  const debouncedSaveData = useMemo(";
    "    () => debounce(save, 300), []";
    "  );";
    "  ";
    "  const after = 1;" ].

(** The thirteen scans in program order. *)
Definition scans : list (list string -> option range) :=
  [ locate focus_listener; locate blur_listener; locate cleanup_effect;
    locate monitor_effect; locate entry_info_effect; locate session_state;
    locate clear_user_data; locate debounced_save;
    locate handle_user_interaction; locate_handleFieldBlur;
    locate perform_save_operation; locate save_with_override;
    locate save_wrapper ].

(** [remove_ranges] after the thirteen scans: each scan that reaches its
    [append] adds one tuple at the end. *)
Definition collect (scans : list (list string -> option range))
           (lines : list string) : list range :=
  fold_left (fun remove_ranges scan =>
               match scan lines with
               | Some r => remove_ranges ++ [r]
               | None => remove_ranges
               end) scans [].

Definition remove_ranges (lines : list string) : list range :=
  collect scans lines.

(** [remove_ranges.sort()] : tuples are ordered lexicographically. *)
Definition range_leb (a b : range) : bool :=
  (fst a <? fst b) || ((fst a =? fst b) && (snd a <=? snd b)).

Fixpoint insert_range (a : range) (l : list range) : list range :=
  match l with
  | [] => [a]
  | b :: l' => if range_leb a b then a :: l else b :: insert_range a l'
  end.

Definition sort_ranges (l : list range) : list range :=
  fold_right insert_range [] l.

(** [for start, end in remove_ranges: if start <= i < end: ...; break] :
    the [end] of the first tuple that covers [i]. *)
Fixpoint first_hit (ranges : list range) (i : nat) : option nat :=
  match ranges with
  | [] => None
  | (start, end_) :: ranges' =>
      if (start <=? i) && (i <? end_) then Some end_ else first_hit ranges' i
  end.

(** The [while i < len(lines)] loop.  [None] means the fuel ran out. *)
Fixpoint apply_loop (fuel : nat) (lines : list string) (ranges : list range)
         (i : nat) (new_lines : list string) : option (list string) :=
  match fuel with
  | 0 => None
  | S fuel' =>
      if i <? length lines then
        match first_hit ranges i with
        | Some end_ => apply_loop fuel' lines ranges end_ new_lines
        | None => apply_loop fuel' lines ranges (S i) (new_lines ++ [line lines i])
        end
      else Some new_lines
  end.

(** Lines 181-198: sort, then the loop from [i = 0] with an empty
    [new_lines]. *)
Definition apply_ranges (lines : list string) (ranges : list range)
  : option (list string) :=
  apply_loop (S (length lines)) lines (sort_ranges ranges) 0 [].

(** The whole script on the content of the file it opens; [None] for the
    file stands for a missing file, where [open] raises.  [Written] carries
    the content written back, [Unfinished] is the loop out of fuel. *)
Inductive outcome : Type :=
| Raised
| Unfinished
| Written (content : string).

Definition run (file : option string) : outcome :=
  match file with
  | None => Raised
  | Some content =>
      let lines := split_lines content in
      match apply_ranges lines (remove_ranges lines) with
      | Some new_lines => Written (join_lines new_lines)
      | None => Unfinished
      end
  end.

(** *** What the specification says the range application computes *)

Definition covered (ranges : list range) (i : nat) : bool :=
  existsb (fun r => (fst r <=? i) && (i <? snd r)) ranges.

(** The lines whose index no interval covers, in order. *)
Definition retained (lines : list string) (ranges : list range) : list string :=
  map snd (List.filter (fun p => negb (covered ranges (fst p)))
                       (combine (seq 0 (length lines)) lines)).

(** The same, walking the lines from index [i] on. *)
Fixpoint keep (ranges : list range) (i : nat) (ls : list string) : list string :=
  match ls with
  | [] => []
  | l :: ls' =>
      if covered ranges i then keep ranges (S i) ls'
      else l :: keep ranges (S i) ls'
  end.

End Phase5.

(** ** The fragment of Python's [re] the scripts use

    A backtracking matcher in continuation-passing style: alternatives are
    tried in the priority order of [re] (a greedy quantifier tries the
    longest run first, a lazy one the shortest; a group followed by [?]
    tries the group first), and a failure of the continuation makes the
    matcher try the next alternative.  Every quantifier of the scripts'
    patterns ranges over a character class. *)

Module Re.
Import Text.

Inductive regex : Type :=
| Lit (l : string)                          (* literal text *)
| Cls (p : ascii -> bool)                   (* one character of a class *)
| Star (greedy : bool) (p : ascii -> bool)  (* [p*] and [p*?] *)
| Plus (greedy : bool) (p : ascii -> bool)  (* [p+] and [p+?] *)
| Opt (r : regex)                           (* [(r)?] *)
| Alt (r1 r2 : regex)                       (* [r1|r2] *)
| Seq (r1 r2 : regex).                      (* [r1 r2] *)

(** [Some rest] when [s = l ++ rest]. *)
Fixpoint drop_prefix (l s : string) : option string :=
  match l with
  | EmptyString => Some s
  | String a l' =>
      match s with
      | EmptyString => None
      | String b s' => if Ascii.eqb a b then drop_prefix l' s' else None
      end
  end.

Section Matcher.
Context {A : Type}.

(** The continuation receives the text matched and the text left. *)
Definition cont : Type := string -> string -> option A.

Fixpoint star_greedy (p : ascii -> bool) (s : string) (k : cont) : option A :=
  match s with
  | EmptyString => k EmptyString s
  | String c s' =>
      if p c then
        match star_greedy p s' (fun w rest => k (String c w) rest) with
        | Some x => Some x
        | None => k EmptyString s
        end
      else k EmptyString s
  end.

Fixpoint star_lazy (p : ascii -> bool) (s : string) (k : cont) : option A :=
  match k EmptyString s with
  | Some x => Some x
  | None =>
      match s with
      | EmptyString => None
      | String c s' =>
          if p c then star_lazy p s' (fun w rest => k (String c w) rest)
          else None
      end
  end.

Definition star (greedy : bool) : (ascii -> bool) -> string -> cont -> option A :=
  if greedy then star_greedy else star_lazy.

Fixpoint rmatch (r : regex) (s : string) (k : cont) : option A :=
  match r with
  | Lit l =>
      match drop_prefix l s with
      | Some rest => k l rest
      | None => None
      end
  | Cls p =>
      match s with
      | String c s' => if p c then k (String c EmptyString) s' else None
      | EmptyString => None
      end
  | Star greedy p => star greedy p s k
  | Plus greedy p =>
      match s with
      | String c s' =>
          if p c then star greedy p s' (fun w rest => k (String c w) rest)
          else None
      | EmptyString => None
      end
  | Opt r1 =>
      match rmatch r1 s k with
      | Some x => Some x
      | None => k EmptyString s
      end
  | Alt r1 r2 =>
      match rmatch r1 s k with
      | Some x => Some x
      | None => rmatch r2 s k
      end
  | Seq r1 r2 =>
      rmatch r1 s (fun w1 s1 => rmatch r2 s1 (fun w2 s2 => k (w1 +:+ w2) s2))
  end.

(** A pattern made of consecutive capture groups. *)
Fixpoint match_groups (gs : list regex) (s : string)
         (k : list string -> string -> option A) : option A :=
  match gs with
  | [] => k [] s
  | g :: gs' =>
      rmatch g s (fun w s1 => match_groups gs' s1 (fun ws rest => k (w :: ws) rest))
  end.
End Matcher.

(** [pattern.match] at the head of [s] for a pattern given by its groups:
    the text of each group and the text after the match. *)
Definition match_at (gs : list regex) (s : string) : option (list string * string) :=
  match_groups gs s (fun ws rest => Some (ws, rest)).

(** [bool(regex.search(text))] : the positions are tried from the left. *)
Fixpoint search (r : regex) (s : string) : bool :=
  match rmatch r s (fun _ _ => Some tt) with
  | Some _ => true
  | None =>
      match s with
      | EmptyString => false
      | String _ s' => search r s'
      end
  end.

(** [pattern.subn(repl, s)] with a function [repl] of the groups: the
    leftmost match is replaced and the scan resumes after it.  The
    patterns of the scripts cannot match the empty string, so the rules of
    [re] for empty matches are not modelled; [fuel] bounds the number of
    loop iterations. *)
Fixpoint subn_loop (fuel : nat) (gs : list regex) (repl : list string -> string)
         (s : string) : string * nat :=
  match fuel with
  | 0 => (s, 0)
  | S fuel' =>
      match match_at gs s with
      | Some (groups, rest) =>
          let (out, n) := subn_loop fuel' gs repl rest in
          (repl groups +:+ out, S n)
      | None =>
          match s with
          | EmptyString => (EmptyString, 0)
          | String c s' =>
              let (out, n) := subn_loop fuel' gs repl s' in
              (String c out, n)
          end
      end
  end.

Definition subn (gs : list regex) (repl : list string -> string) (s : string)
  : string * nat :=
  subn_loop (S (String.length s)) gs repl s.

(** *** The language of a pattern, independently of the matcher *)

Fixpoint all_in (p : ascii -> bool) (w : string) : bool :=
  match w with
  | EmptyString => true
  | String c w' => p c && all_in p w'
  end.

Fixpoint lang (r : regex) (w : string) : Prop :=
  match r with
  | Lit l => w = l
  | Cls p => exists c, w = String c EmptyString /\ p c = true
  | Star _ p => all_in p w = true
  | Plus _ p => w <> EmptyString /\ all_in p w = true
  | Opt r1 => w = EmptyString \/ lang r1 w
  | Alt r1 r2 => lang r1 w \/ lang r2 w
  | Seq r1 r2 => exists u v, w = u +:+ v /\ lang r1 u /\ lang r2 v
  end.

(** Some substring of [text] is in the language of [r]. *)
Definition occurs (r : regex) (text : string) : Prop :=
  exists pre w post, text = pre +:+ w +:+ post /\ lang r w.

(** The pattern matches at no position of [s]. *)
Definition no_match (gs : list regex) (s : string) : Prop :=
  forall pre post, s = pre +:+ post -> match_at gs post = None.

(** Every match of the pattern takes at least one character. *)
Definition consuming (gs : list regex) : Prop :=
  forall s groups rest,
    match_at gs s = Some (groups, rest) -> String.length rest < String.length s.

(** Character classes. *)
Definition dquote : ascii := ascii_of_nat 34.
Definition is_char (a : ascii) : ascii -> bool := Ascii.eqb a.
Definition quote (c : ascii) : bool := is_char "'" c || is_char dquote c.
Definition between (lo hi : ascii) (c : ascii) : bool :=
  (nat_of_ascii lo <=? nat_of_ascii c) && (nat_of_ascii c <=? nat_of_ascii hi).
Definition letter (c : ascii) : bool := between "A" "Z" c || between "a" "z" c.
Definition alnum (c : ascii) : bool := letter c || between "0" "9" c.
Definition none_of (l : list ascii) (c : ascii) : bool :=
  negb (existsb (fun a => Ascii.eqb a c) l).

End Re.

Infix "@@" := Re.Seq (at level 60, right associativity).

(** ** Files

    A path is the sequence of its parts below the [app/] folder, the file
    name last; the file system maps the paths of the files that exist to
    their contents. *)

Module FS.
Definition path : Type := list string.
Abbreviation fs := (gmap (list string) string).

(** [p.exists()] *)
Definition exists_ (m : fs) (p : path) : bool := bool_decide (is_Some (m !! p)).

(** [p.name] *)
Definition name (p : path) : string := List.last p EmptyString.
End FS.

(** ** scripts/remove_js_import_extensions.py *)

Module RemoveJs.
Import Text Re FS.

Definition ws : ascii -> bool := is_space.

(** The class of the path characters: any character but a quote of
    either kind and the question mark. *)
Definition path_char : ascii -> bool := none_of ["'"%char; dquote; "?"%char].

(** [[^;]] *)
Definition not_semicolon : ascii -> bool := none_of [";"%char].

(** In the comments below [Q] stands for the class of the single and the
    double quote, and [P] for [path_char].

    [(from\s+Q)(P+?)(\.js)(Q)] *)
Definition IMPORT_RE : list regex :=
  [ Lit "from" @@ Plus true ws @@ Cls quote;
    Plus false path_char;
    Lit ".js";
    Cls quote ].

(** [(import\s+[^;]+?\s+from\s+Q)(P+?)(\.js)(Q)] *)
Definition EXPORT_RE : list regex :=
  [ Lit "import" @@ Plus true ws @@ Plus false not_semicolon @@ Plus true ws
      @@ Lit "from" @@ Plus true ws @@ Cls quote;
    Plus false path_char;
    Lit ".js";
    Cls quote ].

(** [(require\(\s*Q)(P+?)(\.js)(Q\s*\))] *)
Definition REQUIRE_RE : list regex :=
  [ Lit "require(" @@ Star true ws @@ Cls quote;
    Plus false path_char;
    Lit ".js";
    Cls quote @@ Star true ws @@ Lit ")" ].

(** [(import\(\s*Q)(P+?)(\.js)(Q\s*\))] *)
Definition DYNAMIC_IMPORT_RE : list regex :=
  [ Lit "import(" @@ Star true ws @@ Cls quote;
    Plus false path_char;
    Lit ".js";
    Cls quote @@ Star true ws @@ Lit ")" ].

(** [match.group(n)] *)
Definition group (groups : list string) (n : nat) : string :=
  nth (n - 1) groups EmptyString.

Definition strip_suffix (groups : list string) : string :=
  group groups 1 +:+ group groups 2 +:+ group groups 4.

Definition patterns : list (list regex) :=
  [IMPORT_RE; EXPORT_RE; REQUIRE_RE; DYNAMIC_IMPORT_RE].

(** One turn of the [for pattern in ...] loop on [(text, updated)]. *)
Definition rewrite_step (st : string * bool) (pattern : list regex) : string * bool :=
  let (text, updated) := st in
  let (new_text, count) := subn pattern strip_suffix text in
  if 0 <? count then (new_text, true) else (text, updated).

Definition rewrite_with (ps : list (list regex)) (text : string) : string * bool :=
  fold_left rewrite_step ps (text, false).

(** The quoted suffixes of the fast-path test. *)
Definition js_squote : string := ".js'".
Definition js_dquote : string := ".js" +:+ String dquote EmptyString.

(** [process_file] on the text read: the final [text] and [updated]. *)
Definition process_text (text : string) : string * bool :=
  if negb (contains js_squote text) && negb (contains js_dquote text)
  then (text, false)
  else rewrite_with patterns text.

(** *** Rewriting as the specification words it *)

(** [t'] is [t] with one [.js] that stands immediately before a quote
    taken out; every other character is kept. *)
Definition js_removal (t t' : string) : Prop :=
  exists a q b,
    quote q = true
    /\ t = a +:+ ".js" +:+ String q b
    /\ t' = a +:+ String q b.

(** A pattern of four groups: a head that ends with a quote, a lazy run of
    path characters, the suffix, and a tail that starts with a quote. *)
Definition reference_pattern (gs : list regex) : Prop :=
  exists h t,
    gs = [h; Plus false path_char; Lit ".js"; t]
    /\ (forall w, lang h w ->
          exists x q, w = x +:+ String q EmptyString /\ quote q = true)
    /\ (forall w, lang t w -> exists q b, w = String q b /\ quote q = true).

(** Any character but a quote. *)
Definition not_quote (c : ascii) : bool := negb (quote c).

(** The patterns without the [import ... from] one. *)
Definition patterns_without_export : list (list regex) :=
  [IMPORT_RE; REQUIRE_RE; DYNAMIC_IMPORT_RE].

(** A string between double quotes. *)
Definition dquoted (s : string) : string :=
  String dquote (s +:+ String dquote EmptyString).

(** [process_file]; [None] when [read_text] raises on a missing file. *)
Definition process_file (m : fs) (p : path) : option (fs * bool) :=
  match m !! p with
  | None => None
  | Some text =>
      let (text', updated) := process_text text in
      Some (if updated then <[p := text']> m else m, updated)
  end.

(** [main]: the [for ts_file in ...] loop over the files the traversal
    yields, with the counter [changed]; [None] when [process_file] raises. *)
Fixpoint main_loop (files : list path) (m : fs) (changed : nat)
  : option (fs * nat) :=
  match files with
  | [] => Some (m, changed)
  | ts_file :: files' =>
      match process_file m ts_file with
      | None => None
      | Some (m', updated) =>
          main_loop files' m' (if updated then changed + 1 else changed)
      end
  end.

Definition main (files : list path) (m : fs) : option (fs * nat) :=
  main_loop files m 0.

(** The substitution counts of the turns of the loop, in order: the
    [count] that [subn] returns for each pattern on the text as the turns
    before it left it. *)
Fixpoint counts (ps : list (list regex)) (text : string) : list nat :=
  match ps with
  | [] => []
  | pattern :: ps' =>
      let (new_text, count) := subn pattern strip_suffix text in
      count :: counts ps' (if 0 <? count then new_text else text)
  end.

(** *** Contents made of import lines *)

Definition import_line (p : string) : string :=
  "import x from '" +:+ p +:+ ".js'".

Definition import_line_rewritten (p : string) : string :=
  "import x from '" +:+ p +:+ "'".

(** A non-empty path of path characters that does not itself end with the
    suffix. *)
Definition plain_path (p : string) : Prop :=
  p <> EmptyString
  /\ all_in path_char p = true
  /\ forall stem, stem <> EmptyString -> p <> stem +:+ ".js".

(** What follows a line in ['\n'.join(...)]: nothing after the last line,
    a newline and the other lines otherwise. *)
Definition continued (rest : list string) : string :=
  match rest with
  | [] => EmptyString
  | _ :: _ => String newline (join_lines rest)
  end.

(** Somewhere in [t] a non-empty run of path characters followed by the
    suffix fills the space between two quotes. *)
Definition suffix_between_quotes (t : string) : Prop :=
  exists x q0 stem q z,
    quote q0 = true /\ quote q = true
    /\ stem <> EmptyString /\ all_in path_char stem = true
    /\ t = x +:+ String q0 ((stem +:+ ".js") +:+ String q z).

(** The text after [n] runs of the rewriter. *)
Fixpoint rerun (n : nat) (text : string) : string :=
  match n with
  | 0 => text
  | S k => rerun k (fst (process_text text))
  end.

End RemoveJs.

(** ** scripts/migrate_app_js_to_ts.py *)

Module Migrate.
Import Text Re FS.

Definition FORCE_TSX_SEGMENTS : gset string :=
  {[ "components"; "screens"; "templates" ]}.

Definition ws : ascii -> bool := is_space.
Definition not_gt : ascii -> bool := none_of [">"%char].

(** [</\s*[A-Za-z][A-Za-z0-9]*(\s|>)] *)
Definition closing_tag : regex :=
  Lit "</" @@ Star true ws @@ Cls letter @@ Star true alnum
    @@ Alt (Cls ws) (Lit ">").

(** [<\s*[A-Za-z][A-Za-z0-9]*(\s[^>]*?)?/>] *)
Definition self_closing_tag : regex :=
  Lit "<" @@ Star true ws @@ Cls letter @@ Star true alnum
    @@ Opt (Cls ws @@ Star false not_gt) @@ Lit "/>".

(** [<\s*[A-Za-z][A-Za-z0-9]*\s[^>]*>] *)
Definition opening_tag : regex :=
  Lit "<" @@ Star true ws @@ Cls letter @@ Star true alnum
    @@ Cls ws @@ Star true not_gt @@ Lit ">".

Definition JSX_SNIPPETS : list regex :=
  [closing_tag; self_closing_tag; opening_tag].

Definition TS_NOCHECK_BANNER : string :=
  "// @ts-nocheck" +:+ String newline (String newline EmptyString).

(** [bool(FORCE_TSX_SEGMENTS & set(parts))] *)
Definition should_force_tsx (p : path) : bool :=
  bool_decide (FORCE_TSX_SEGMENTS ∩ list_to_set p ≠ ∅).

Definition contains_jsx (text : string) : bool :=
  existsb (fun regex => search regex text) JSX_SNIPPETS.

Definition target_extension (p : path) (text : string) : string :=
  if should_force_tsx p then ".tsx"
  else if contains_jsx text then ".tsx"
  else ".ts".

Definition ensure_banner (text : string) : string :=
  let stripped := lstrip text in
  if startswith stripped "// @ts-nocheck" || startswith stripped "/* @ts-nocheck"
  then text
  else TS_NOCHECK_BANNER +:+ text.

(** [name.rfind(c)] *)
Fixpoint rfind (c : ascii) (s : string) : option nat :=
  match s with
  | EmptyString => None
  | String d s' =>
      match rfind c s' with
      | Some i => Some (S i)
      | None => if Ascii.eqb d c then Some 0 else None
      end
  end.

(** [PurePath.suffix] of a file name: the text from the last dot on, when
    that dot is neither the first nor the last character. *)
Definition suffix (name : string) : string :=
  match rfind "."%char name with
  | Some i =>
      if (0 <? i) && (i <? String.length name - 1)
      then substring i (String.length name - i) name
      else EmptyString
  | None => EmptyString
  end.

(** [path.with_suffix(new_suffix)]; [None] when the path has no name,
    where pathlib raises. *)
Definition with_suffix (p : path) (new_suffix : string) : option path :=
  match name p with
  | EmptyString => None
  | n =>
      let stem := substring 0 (String.length n - String.length (suffix n)) n in
      Some (removelast p ++ [stem +:+ new_suffix])
  end.

Inductive result : Type :=
| Raised                            (* an exception left [convert_file] *)
| Skip                              (* [return None] *)
| Renamed (old new : path).         (* [return rel_old, rel_new] *)

Definition convert_file (m : fs) (p : path) (dry_run : bool) : fs * result :=
  match m !! p with
  | None => (m, Raised)
  | Some text =>
      let new_suffix := target_extension p text in
      match with_suffix p new_suffix with
      | None => (m, Raised)
      | Some new_path =>
          if exists_ m new_path then (m, Skip)
          else
            let updated_text := ensure_banner text in
            if dry_run then (m, Renamed p new_path)
            else (delete p (<[new_path := updated_text]> m), Renamed p new_path)
      end
  end.

Record tally : Type := Tally { conversions : nat; skipped : nat }.

(** The [for js_file in gather_js_files()] loop; [None] when an exception
    leaves it.  The list of files is the one the traversal produced before
    the loop started. *)
Fixpoint main_loop (dry_run : bool) (files : list path) (m : fs) (t : tally)
  : option (fs * tally) :=
  match files with
  | [] => Some (m, t)
  | js_file :: files' =>
      if negb (endswith (name js_file) ".js")
      then main_loop dry_run files' m t
      else
        match convert_file m js_file dry_run with
        | (_, Raised) => None
        | (m', Skip) =>
            main_loop dry_run files' m' (Tally (conversions t) (skipped t + 1))
        | (m', Renamed _ _) =>
            main_loop dry_run files' m' (Tally (conversions t + 1) (skipped t))
        end
  end.

(** The test of [ensure_banner]: the content starts, after leading white
    space, with one of the two markers. *)
Definition has_banner (text : string) : bool :=
  startswith (lstrip text) "// @ts-nocheck"
  || startswith (lstrip text) "/* @ts-nocheck".

(** *** The classification as the specification words it *)

(** Some part of the path is one of the three component-like names. *)
Definition component_like (p : path) : Prop :=
  exists seg, In seg p
    /\ (seg = "components" \/ seg = "screens" \/ seg = "templates").

(** Some substring of the content is a closing tag, a self-closing tag or
    an opening tag followed by white space. *)
Definition has_jsx_signature (text : string) : Prop :=
  occurs closing_tag text \/ occurs self_closing_tag text
  \/ occurs opening_tag text.

(** A comparison on one line and a generic-looking token on the next. *)
Definition comparison_then_generic : string :=
  "a < b" +:+ String newline "Map<string>".

(** [main]: the exit status with the final file system and counters;
    [None] when an exception leaves the loop. *)
Definition main (app_root_exists dry_run : bool) (files : list path) (m : fs)
  : option (fs * tally * nat) :=
  if negb app_root_exists then Some (m, Tally 0 0, 1)
  else
    match main_loop dry_run files m (Tally 0 0) with
    | Some (m', t) => Some (m', t, 0)
    | None => None
    end.

End Migrate.

(** * Properties *)

(** Comparisons on [nat] read back as propositions. *)
Ltac nat_cmp :=
  repeat match goal with
         | H : (_ <=? _) = true |- _ => apply Nat.leb_le in H
         | H : (_ <=? _) = false |- _ => apply Nat.leb_gt in H
         | H : (_ <? _) = true |- _ => apply Nat.ltb_lt in H
         | H : (_ <? _) = false |- _ => apply Nat.ltb_ge in H
         | H : (_ =? _) = true |- _ => apply Nat.eqb_eq in H
         | H : (_ =? _) = false |- _ => apply Nat.eqb_neq in H
         end.

(** ** Range application (refactor_phase5.py, lines 181-198) *)

Section RangeApplication.
Import Text Phase5.

Lemma first_hit_Some ranges i e :
  first_hit ranges i = Some e -> i < e /\ covered ranges i = true.
Proof.
  induction ranges as [|[s e'] ranges IH]; simpl; [discriminate|].
  destruct ((s <=? i) && (i <? e')) eqn:Hc.
  - intros [= <-]. apply andb_prop in Hc as [_ Hlt].
    apply Nat.ltb_lt in Hlt. auto.
  - intros H. destruct (IH H) as [Hlt Hcov]. auto.
Qed.

Lemma first_hit_None ranges i :
  first_hit ranges i = None -> covered ranges i = false.
Proof.
  induction ranges as [|[s e'] ranges IH]; simpl; [reflexivity|].
  destruct ((s <=? i) && (i <? e')) eqn:Hc; [discriminate|].
  intros H. apply IH in H. exact H.
Qed.

Lemma skipn_nth_cons (l : list string) : forall i,
  i < length l -> skipn i l = line l i :: skipn (S i) l.
Proof.
  induction l as [|x l IH]; intros i Hi; simpl in Hi; [lia|].
  destruct i as [|i]; [reflexivity|].
  simpl. apply IH. lia.
Qed.

(** A run of covered indices contributes nothing. *)
Lemma keep_skip_covered ranges (lines : list string) d : forall i,
  (forall k, i <= k < i + d -> covered ranges k = true) ->
  keep ranges i (skipn i lines) = keep ranges (i + d) (skipn (i + d) lines).
Proof.
  induction d as [|d IH]; intros i Hcov.
  - rewrite Nat.add_0_r. reflexivity.
  - destruct (le_lt_dec (length lines) i) as [Hge|Hlt].
    + rewrite !skipn_all2 by lia. reflexivity.
    + rewrite (skipn_nth_cons lines i Hlt).
      simpl. rewrite Hcov by lia.
      replace (i + S d) with (S i + d) by lia.
      apply IH. intros k Hk. apply Hcov. lia.
Qed.

Lemma apply_loop_keep ranges (lines : list string) : forall fuel i acc,
  length lines - i < fuel ->
  apply_loop fuel lines ranges i acc
  = Some (acc ++ keep ranges i (skipn i lines)).
Proof.
  induction fuel as [|fuel IH]; intros i acc Hfuel; [lia|].
  simpl. destruct (i <? length lines) eqn:Hi.
  - apply Nat.ltb_lt in Hi.
    destruct (first_hit ranges i) as [e|] eqn:Hhit.
    + destruct (first_hit_Some _ _ _ Hhit) as [Hlt Hcov].
      rewrite IH by lia. f_equal. f_equal.
      replace e with (i + (e - i)) by lia.
      symmetry. apply keep_skip_covered.
      intros k Hk.
      clear IH Hcov. revert Hhit. clear -Hk.
      induction ranges as [|[s e'] ranges IHr]; simpl; [discriminate|].
      destruct ((s <=? i) && (i <? e')) eqn:Hc.
      * intros [= <-]. apply andb_prop in Hc as [Hs He]. nat_cmp.
        assert (Hk1 : (s <=? k) = true) by (apply Nat.leb_le; lia).
        assert (Hk2 : (k <? e') = true) by (apply Nat.ltb_lt; lia).
        rewrite Hk1, Hk2. reflexivity.
      * intros H. rewrite (IHr H). apply orb_true_r.
    + rewrite IH by lia.
      rewrite (skipn_nth_cons lines i Hi).
      simpl. rewrite (first_hit_None _ _ Hhit).
      rewrite <- app_assoc. reflexivity.
  - apply Nat.ltb_ge in Hi. rewrite skipn_all2 by exact Hi.
    simpl. rewrite app_nil_r. reflexivity.
Qed.

Lemma covered_insert_range a l i :
  covered (insert_range a l) i = covered (a :: l) i.
Proof.
  induction l as [|b l IH]; [reflexivity|].
  simpl. destruct (range_leb a b); [reflexivity|].
  simpl. change (existsb _ (insert_range a l)) with (covered (insert_range a l) i).
  rewrite IH. simpl.
  destruct ((fst a <=? i) && (i <? snd a)), ((fst b <=? i) && (i <? snd b));
    reflexivity.
Qed.

Lemma covered_sort_ranges l i : covered (sort_ranges l) i = covered l i.
Proof.
  induction l as [|a l IH]; [reflexivity|].
  simpl. rewrite covered_insert_range. simpl.
  change (existsb _ (sort_ranges l)) with (covered (sort_ranges l) i).
  rewrite IH. reflexivity.
Qed.

Lemma keep_ext r1 r2 (ls : list string) : forall i,
  (forall k, covered r1 k = covered r2 k) ->
  keep r1 i ls = keep r2 i ls.
Proof.
  induction ls as [|l ls IH]; intros i H; [reflexivity|].
  simpl. rewrite H, (IH (S i) H). reflexivity.
Qed.

Lemma retained_keep ranges (ls : list string) : forall i,
  map snd (List.filter (fun p => negb (covered ranges (fst p)))
                       (combine (seq i (length ls)) ls))
  = keep ranges i ls.
Proof.
  induction ls as [|l ls IH]; intros i; [reflexivity|].
  simpl. destruct (covered ranges i); simpl; rewrite IH; reflexivity.
Qed.

Lemma keep_single s e (ls : list string) : forall i,
  s <= e ->
  keep [(s, e)] i ls = firstn (s - i) ls ++ skipn (e - i) ls.
Proof.
  induction ls as [|l ls IH]; intros i Hse.
  - simpl. rewrite firstn_nil, skipn_nil. reflexivity.
  - cbn [keep covered existsb fst snd]. rewrite orb_false_r, (IH (S i) Hse).
    destruct (s <=? i) eqn:Hs; destruct (i <? e) eqn:He; nat_cmp; cbn [andb].
    + replace (s - i) with 0 by lia. replace (s - S i) with 0 by lia.
      replace (e - i) with (S (e - S i)) by lia. reflexivity.
    + replace (s - i) with 0 by lia. replace (s - S i) with 0 by lia.
      replace (e - i) with 0 by lia. replace (e - S i) with 0 by lia.
      reflexivity.
    + replace (s - i) with (S (s - S i)) by lia.
      replace (e - i) with (S (e - S i)) by lia. reflexivity.
    + lia.
Qed.

Lemma apply_ranges_keep lines ranges :
  apply_ranges lines ranges = Some (keep ranges 0 lines).
Proof.
  unfold apply_ranges. rewrite apply_loop_keep by lia. simpl.
  f_equal. apply keep_ext. intros k. apply covered_sort_ranges.
Qed.

Lemma apply_ranges_retained lines ranges :
  apply_ranges lines ranges = Some (retained lines ranges).
Proof.
  rewrite apply_ranges_keep. unfold retained.
  rewrite retained_keep. reflexivity.
Qed.

(** C1.  The range application loop, run on any line sequence with any
    list of intervals, finishes and returns exactly the lines that no
    interval covers, in their original order and unchanged; for two
    intervals that overlap by at least one line this is the lines before
    the first followed by the lines after both, so every covered line is
    dropped once and nothing else is. *)
Theorem C1_apply_ranges_retains_uncovered :
  (forall lines ranges,
      apply_ranges lines ranges = Some (retained lines ranges))
  /\ (forall lines s1 e1 s2 e2,
         s1 <= s2 -> s2 < e1 -> s2 < e2 ->
         apply_ranges lines [(s1, e1); (s2, e2)]
         = Some (firstn s1 lines ++ skipn (Nat.max e1 e2) lines)
         /\ apply_ranges lines [(s2, e2); (s1, e1)]
            = Some (firstn s1 lines ++ skipn (Nat.max e1 e2) lines)).
Proof.
  split.
  - apply apply_ranges_retained.
  - intros lines s1 e1 s2 e2 H1 H2 H3.
    assert (Hsingle : keep [(s1, Nat.max e1 e2)] 0 lines
                      = firstn s1 lines ++ skipn (Nat.max e1 e2) lines).
    { rewrite keep_single by lia. rewrite !Nat.sub_0_r. reflexivity. }
    rewrite <- Hsingle.
    split; rewrite apply_ranges_keep; f_equal; apply keep_ext; intros k;
      simpl; rewrite !orb_false_r;
      destruct (s1 <=? k) eqn:A; destruct (k <? e1) eqn:B;
      destruct (s2 <=? k) eqn:C; destruct (k <? e2) eqn:D;
      destruct (k <? Nat.max e1 e2) eqn:E; simpl; try reflexivity;
      nat_cmp; lia.
Qed.

(** The loop on a concrete overlap: lines 1-3 and 2-4 of six. *)
Lemma C1_apply_ranges_retains_uncovered_witness :
  apply_ranges ["a"; "b"; "c"; "d"; "e"; "f"] [(1, 3); (2, 5)]
  = Some ["a"; "f"].
Proof.
  destruct C1_apply_ranges_retains_uncovered as [_ H].
  destruct (H ["a"; "b"; "c"; "d"; "e"; "f"] 1 3 2 5) as [H1 _]; [lia..|].
  rewrite H1. reflexivity.
Defined.

End RangeApplication.

(** ** Locating regions (refactor_phase5.py, lines 27-179) *)

Section Scans.
Import Text Phase5.

Lemma find_seq_Some test n : forall lo j,
  find test (seq lo n) = Some j <->
  (lo <= j < lo + n /\ test j = true /\ forall k, lo <= k < j -> test k = false).
Proof.
  induction n as [|n IH]; intros lo j; simpl.
  - split; [discriminate|]. intros [H _]. lia.
  - destruct (test lo) eqn:Hlo.
    + split.
      * intros [= <-]. repeat split; auto; try lia. all: intros k Hk; lia.
      * intros (Hj & Ht & Hmin).
        destruct (Nat.eq_dec lo j) as [->|Hne]; [reflexivity|].
        rewrite Hmin in Hlo by lia. discriminate.
    + rewrite IH. split.
      * intros (Hj & Ht & Hmin). repeat split; try lia; auto.
        intros k Hk. destruct (Nat.eq_dec k lo) as [->|Hne]; [exact Hlo|].
        apply Hmin. lia.
      * intros (Hj & Ht & Hmin).
        assert (lo <> j) by (intros ->; congruence).
        repeat split; try lia; auto. intros k Hk. apply Hmin. lia.
Qed.

Lemma find_seq_None test n : forall lo,
  find test (seq lo n) = None <-> (forall k, lo <= k < lo + n -> test k = false).
Proof.
  induction n as [|n IH]; intros lo; simpl.
  - split; [intros _ k Hk; lia | reflexivity].
  - destruct (test lo) eqn:Hlo.
    + split; [discriminate|]. intros H. rewrite H in Hlo by lia. discriminate.
    + rewrite IH. split; intros H k Hk.
      * destruct (Nat.eq_dec k lo) as [->|Hne]; [exact Hlo|]. apply H. lia.
      * apply H. lia.
Qed.

Lemma first_from_Some test lo hi j :
  first_from test lo hi = Some j <->
  (lo <= j < hi /\ test j = true /\ forall k, lo <= k < j -> test k = false).
Proof.
  unfold first_from. rewrite find_seq_Some. split.
  - intros (Hj & Ht & Hmin). repeat split; try lia; auto.
  - intros (Hj & Ht & Hmin). repeat split; try lia; auto.
Qed.

Lemma first_from_None test lo hi :
  first_from test lo hi = None <-> (forall k, lo <= k < hi -> test k = false).
Proof.
  unfold first_from. rewrite find_seq_None. split; intros H k Hk; apply H; lia.
Qed.

Lemma first_from_starts_at is_start lines start :
  first_from (fun i => is_start (line lines i)) 0 (length lines) = Some start
  <-> starts_at is_start lines start.
Proof.
  rewrite first_from_Some. unfold starts_at. split.
  - intros (Hj & Ht & Hmin). repeat split; try lia; auto.
    intros i Hi. apply Hmin. lia.
  - intros (Hj & Ht & Hmin). repeat split; try lia; auto.
    intros i Hi. apply Hmin. lia.
Qed.

(** The generic scan, read off its two loops. *)
Lemma locate_Some r lines start e :
  locate r lines = Some (start, e) <->
  starts_at (is_start r) lines start
  /\ exists j, e = stop r lines j
       /\ start < j < length lines
       /\ is_end r lines start j = true
       /\ forall k, start < k < j -> is_end r lines start k = false.
Proof.
  unfold locate.
  destruct (first_from (fun i => is_start r (line lines i)) 0 (length lines))
    as [s|] eqn:Hs.
  - apply first_from_starts_at in Hs.
    destruct (first_from (is_end r lines s) (s + 1) (length lines)) as [j|] eqn:Hj.
    + apply first_from_Some in Hj. destruct Hj as (Hj & Ht & Hmin). split.
      * intros [= <- <-]. split; [exact Hs|]. exists j.
        repeat split; try lia; auto. intros k Hk. apply Hmin. lia.
      * intros (Hs' & j' & -> & Hj' & Ht' & Hmin').
        assert (start = s).
        { destruct Hs as (A1 & A2 & A3), Hs' as (B1 & B2 & B3).
          destruct (Nat.lt_trichotomy start s) as [H|[H|H]]; auto.
          - rewrite (A3 _ H) in B2. discriminate.
          - rewrite (B3 _ H) in A2. discriminate. }
        subst s.
        assert (j' = j).
        { destruct (Nat.lt_trichotomy j' j) as [H|[H|H]]; auto.
          - rewrite Hmin in Ht' by lia. discriminate.
          - rewrite Hmin' in Ht by lia. discriminate. }
        subst j'. reflexivity.
    + split; [discriminate|].
      intros (Hs' & j' & -> & Hj' & Ht' & Hmin').
      assert (start = s).
      { destruct Hs as (A1 & A2 & A3), Hs' as (B1 & B2 & B3).
        destruct (Nat.lt_trichotomy start s) as [H|[H|H]]; auto.
        - rewrite (A3 _ H) in B2. discriminate.
        - rewrite (B3 _ H) in A2. discriminate. }
      subst s.
      rewrite first_from_None in Hj. rewrite Hj in Ht' by lia. discriminate.
  - split; [discriminate|]. intros (Hs' & _).
    apply first_from_starts_at in Hs'. congruence.
Qed.

Lemma locate_None r lines :
  locate r lines = None <->
  (forall i, i < length lines -> is_start r (line lines i) = false)
  \/ exists start, starts_at (is_start r) lines start
       /\ forall j, start < j < length lines -> is_end r lines start j = false.
Proof.
  unfold locate.
  destruct (first_from (fun i => is_start r (line lines i)) 0 (length lines))
    as [s|] eqn:Hs.
  - pose proof Hs as Hs0. apply first_from_starts_at in Hs.
    destruct (first_from (is_end r lines s) (s + 1) (length lines)) as [j|] eqn:Hj.
    + apply first_from_Some in Hj. destruct Hj as (Hj & Ht & Hmin).
      split; [discriminate|]. intros [H|(s' & Hs' & H)].
      * destruct Hs as (A1 & A2 & A3). rewrite H in A2 by lia. discriminate.
      * apply first_from_starts_at in Hs'. assert (s' = s) by congruence.
        subst s'. rewrite H in Ht by lia. discriminate.
    + split; [|reflexivity]. intros _. right. exists s. split; [exact Hs|].
      rewrite first_from_None in Hj. intros j Hj'. apply Hj. lia.
  - split; [|reflexivity]. intros _. left.
    rewrite first_from_None in Hs. intros i Hi. apply Hs. lia.
Qed.

End Scans.

(** ** The balanced-brace scan (refactor_phase5.py, lines 134-145) *)

Section BraceScan.
Import Text Phase5.

Lemma counter_after_start lines start :
  counter_after lines start start = brace_delta (line lines start).
Proof.
  unfold counter_after. replace (S start - start) with 1 by lia.
  simpl. reflexivity.
Qed.

Lemma counter_after_step lines start j :
  start <= j ->
  counter_after lines start (S j)
  = (counter_after lines start j + brace_delta (line lines (S j)))%Z.
Proof.
  intros Hj. unfold counter_after.
  replace (S (S j) - start) with (S (S j - start)) by lia.
  rewrite seq_S, fold_left_app. simpl.
  replace (start + (S j - start)) with (S j) by lia. reflexivity.
Qed.

(** The running counter agrees with the count recomputed from the start
    line, so the inner loop stops where the recomputed count first
    vanishes after the start line. *)
Lemma brace_scan_first_from lines start : forall rest j c,
  start <= j ->
  rest = skipn j lines ->
  (c + brace_delta (line lines j))%Z = counter_after lines start j ->
  brace_scan start j c rest
  = first_from (fun j => (counter_after lines start j =? 0)%Z && (start <? j))
               j (length lines).
Proof.
  induction rest as [|l rest IH]; intros j c Hj Hrest Hc.
  - assert (Hlen : length lines <= j).
    { pose proof (length_skipn j lines) as H. rewrite <- Hrest in H.
      simpl in H. lia. }
    unfold first_from. replace (length lines - j) with 0 by lia. reflexivity.
  - assert (Hlt : j < length lines).
    { pose proof (length_skipn j lines) as H. rewrite <- Hrest in H.
      simpl in H. lia. }
    rewrite (skipn_nth_cons lines j Hlt) in Hrest.
    injection Hrest as Hl Hrest'. subst l.
    simpl. rewrite Hc.
    unfold first_from. replace (length lines - j) with (S (length lines - S j)) by lia.
    simpl.
    destruct ((counter_after lines start j =? 0)%Z && (start <? j)); [reflexivity|].
    apply IH; [lia | exact Hrest' |].
    rewrite counter_after_step by exact Hj. reflexivity.
Qed.

Lemma locate_handleFieldBlur_first_from lines start :
  starts_at is_handleFieldBlur_start lines start ->
  locate_handleFieldBlur lines
  = match first_from
            (fun j => (counter_after lines start j =? 0)%Z && (start <? j))
            start (length lines) with
    | Some j => Some (start, j + 1)
    | None => None
    end.
Proof.
  intros Hs. unfold locate_handleFieldBlur.
  apply first_from_starts_at in Hs. rewrite Hs.
  rewrite (brace_scan_first_from lines start (skipn start lines) start 0%Z);
    [reflexivity | lia | reflexivity |].
  rewrite counter_after_start. lia.
Qed.

(** C2.  In the [handleFieldBlur] scan the counter, started at zero on the
    start line, gains the opening braces and loses the closing braces of
    each line, and the region recorded is [(start, j + 1)] for the first
    line [j] strictly after the start line at which the counter is zero;
    on a handler whose body nests braces three levels deep the region
    runs through the handler's own closing brace. *)
Theorem C2_handleFieldBlur_balanced_end :
  (forall lines start j,
      starts_at is_handleFieldBlur_start lines start ->
      locate_handleFieldBlur lines = Some (start, j + 1) <->
      (start < j < length lines
       /\ counter_after lines start j = 0%Z
       /\ forall k, start < k < j -> counter_after lines start k <> 0%Z))
  /\ (forall lines start k,
         start <= k ->
         counter_after lines start start = brace_delta (line lines start)
         /\ counter_after lines start (S k)
            = (counter_after lines start k
               + Z.of_nat (count open_brace (line lines (S k)))
               - Z.of_nat (count close_brace (line lines (S k))))%Z)
  /\ locate_handleFieldBlur nested_handler = Some (1, 9).
Proof.
  split; [|split].
  - intros lines start j Hs.
    rewrite (locate_handleFieldBlur_first_from lines start Hs).
    destruct (first_from _ start (length lines)) as [j'|] eqn:Hf.
    + apply first_from_Some in Hf. destruct Hf as (Hj' & Ht & Hmin).
      apply andb_prop in Ht as [Hz Hlt]. apply Z.eqb_eq in Hz. nat_cmp.
      split.
      * intros [= E]. assert (j = j') by lia. subst j'.
        repeat split; try lia. intros k Hk Hk0.
        specialize (Hmin k ltac:(lia)). rewrite Hk0 in Hmin. simpl in Hmin.
        nat_cmp. lia.
      * intros (Hj & Hz' & Hmin').
        destruct (Nat.lt_trichotomy j j') as [H|[H|H]].
        -- specialize (Hmin j ltac:(lia)). rewrite Hz' in Hmin. simpl in Hmin.
           nat_cmp. lia.
        -- subst. reflexivity.
        -- exfalso. apply (Hmin' j'); [lia | exact Hz].
    + rewrite first_from_None in Hf. split; [discriminate|].
      intros (Hj & Hz' & _). specialize (Hf j ltac:(lia)).
      rewrite Hz' in Hf. simpl in Hf. nat_cmp. lia.
  - intros lines start k Hk. split.
    + apply counter_after_start.
    + rewrite counter_after_step by exact Hk. unfold brace_delta. lia.
  - reflexivity.
Qed.

(** The theorem at the nested handler: the start line is line 1 and the
    counter first returns to zero on line 8. *)
Lemma C2_handleFieldBlur_balanced_end_witness :
  locate_handleFieldBlur nested_handler = Some (1, 8 + 1).
Proof.
  destruct C2_handleFieldBlur_balanced_end as [H _].
  apply (H nested_handler 1 8).
  - split; [simpl; lia|]. split; [reflexivity|].
    intros i Hi. assert (i = 0) by lia. subst i. reflexivity.
  - split; [simpl; lia|]. split; [reflexivity|].
    intros k Hk.
    assert (Hcases : k = 2 \/ k = 3 \/ k = 4 \/ k = 5 \/ k = 6 \/ k = 7) by lia.
    destruct Hcases as [->|[->|[->|[->|[->| ->]]]]]; discriminate.
Defined.

End BraceScan.

(** ** Guarded ends and unterminated regions *)

Section Guards.
Import Text Phase5.

Lemma collect_from (scans : list (list string -> option range)) lines : forall acc,
  fold_left (fun remove_ranges scan =>
               match scan lines with
               | Some r => remove_ranges ++ [r]
               | None => remove_ranges
               end) scans acc
  = acc ++ omap (fun scan => scan lines) scans.
Proof.
  induction scans as [|scan scans IH]; intros acc; simpl.
  - rewrite app_nil_r. reflexivity.
  - rewrite IH. destruct (scan lines); [|reflexivity].
    rewrite <- app_assoc. reflexivity.
Qed.

Lemma collect_omap scans lines :
  collect scans lines = omap (fun scan => scan lines) scans.
Proof. unfold collect. rewrite collect_from. reflexivity. Qed.

(** [lines[start:j]] is the lines [start], ..., [j - 1]. *)
Lemma slice_lines (lines : list string) start : forall n,
  start + n <= length lines ->
  slice lines start (start + n) = map (line lines) (seq start n).
Proof.
  unfold slice. intros n. replace (start + n - start) with n by lia.
  revert start. induction n as [|n IH]; intros start Hn.
  - reflexivity.
  - rewrite (skipn_nth_cons lines start) by lia. simpl. f_equal.
    apply IH. lia.
Qed.

Lemma nth_block_end (m c : string) body post :
  line (m :: body ++ c :: post) (S (length body)) = c.
Proof.
  unfold line. simpl. rewrite app_nth2 by lia.
  rewrite Nat.sub_diag. reflexivity.
Qed.

Lemma nth_block_body (m c : string) body post k :
  0 < k < S (length body) -> In (line (m :: body ++ c :: post) k) body.
Proof.
  intros Hk. destruct k as [|k]; [lia|]. unfold line. simpl.
  rewrite app_nth1 by lia. apply nth_In. lia.
Qed.

Lemma slice_block (m c : string) body post :
  slice (m :: body ++ c :: post) 0 (S (length body)) = m :: body.
Proof.
  unfold slice. simpl. f_equal.
  rewrite firstn_app, Nat.sub_diag, firstn_all. simpl.
  apply app_nil_r.
Qed.

(** A block at the head of a file: the start line [m], a body without the
    end literal, and the closing line [c]; [post] is what follows. *)
Lemma block_start (st : string -> bool) (m : string) rest :
  st m = true -> starts_at st (m :: rest) 0.
Proof.
  intros Hm. split; [simpl; lia|]. split; [exact Hm|]. intros i Hi. lia.
Qed.

(** The guard occurs before the first closing line: the region is the
    block, whatever follows it. *)
Lemma guarded_block_located st e g (m c : string) body post :
  st m = true ->
  (forall l, In l body -> contains e l = false) ->
  contains e c = true ->
  contains g (join (m :: body)) = true ->
  locate (Region st (guarded_end e g) through) (m :: body ++ c :: post)
  = Some (0, S (S (length body))).
Proof.
  intros Hm Hbody Hc Hg. apply locate_Some.
  split; [apply block_start; exact Hm|].
  exists (S (length body)). simpl. unfold through, guarded_end.
  split; [lia|].
  split; [rewrite length_app; simpl; lia|]. split.
  - rewrite nth_block_end, Hc, slice_block. exact Hg.
  - intros k Hk. rewrite (Hbody _ (nth_block_body m c body post k Hk)).
    reflexivity.
Qed.

(** The guard does not occur before the first closing line and occurs
    before the second one: the region runs through the second one. *)
Lemma unguarded_block_joined st e g (m c : string) body1 body2 post :
  st m = true ->
  (forall l, In l (body1 ++ body2) -> contains e l = false) ->
  contains e c = true ->
  contains g (join (m :: body1)) = false ->
  contains g (join (m :: body1 ++ c :: body2)) = true ->
  locate (Region st (guarded_end e g) through)
         (m :: body1 ++ c :: body2 ++ c :: post)
  = Some (0, length (m :: body1 ++ c :: body2 ++ [c])).
Proof.
  intros Hm Hbody Hc Hg1 Hg2.
  assert (Elines : m :: body1 ++ c :: body2 ++ c :: post
                   = m :: (body1 ++ c :: body2) ++ c :: post).
  { rewrite <- app_assoc. reflexivity. }
  assert (Elen : length (m :: body1 ++ c :: body2 ++ [c])
                 = S (S (length (body1 ++ c :: body2)))).
  { simpl. rewrite !length_app. simpl. rewrite length_app. simpl. lia. }
  rewrite Elen. apply locate_Some.
  split; [apply block_start; exact Hm|].
  exists (S (length (body1 ++ c :: body2))). simpl. unfold through, guarded_end.
  split; [lia|].
  split; [repeat (rewrite length_app; cbn [length]); lia|]. split.
  - rewrite Elines, nth_block_end, Hc, slice_block. exact Hg2.
  - intros k Hk.
    destruct (Nat.lt_trichotomy k (S (length body1))) as [Hlt|[->|Hgt]].
    + rewrite (Hbody (line (m :: body1 ++ c :: body2 ++ c :: post) k)).
      * reflexivity.
      * apply in_or_app. left.
        apply (nth_block_body m c body1 (body2 ++ c :: post) k). lia.
    + rewrite (slice_block m c body1 (body2 ++ c :: post)), Hg1.
      apply andb_false_r.
    + rewrite (Hbody (line (m :: body1 ++ c :: body2 ++ c :: post) k)).
      * reflexivity.
      * apply in_or_app. right.
        rewrite length_app in Hk. simpl in Hk.
        destruct k as [|k]; [lia|]. unfold line. simpl.
        rewrite app_nth2 by lia.
        destruct (k - length body1) as [|i] eqn:Ei; [lia|]. simpl.
        rewrite app_nth1 by lia. apply nth_In. lia.
Qed.

(** C4 (amended).  For a region whose end is a fixed text with a content
    guard, the region ends at the first line after the start line that
    contains the end literal while the guard literal occurs in the
    concatenation of the lines from the start line up to, and not
    including, that line.  A closing line before which the guard has not
    occurred does not end the region.  So a block (a start line, a body
    without the end literal, a closing line) before whose closing line the
    guard occurs is removed, and nothing after it; a block that is the whole
    file and has no guard before its closing line is not removed; and when a
    block without the guard is followed by a second body and the same closing
    line, with the guard in that body, the region runs from the start line
    through the second closing line, and both are removed. *)
Theorem C4_guarded_end_excludes_current_line :
  (forall st e g lines start j,
      locate (Region st (guarded_end e g) through) lines = Some (start, j + 1)
      <->
      (starts_at st lines start
       /\ start < j < length lines
       /\ contains e (line lines j) = true
       /\ contains g (join (map (line lines) (seq start (j - start)))) = true
       /\ forall k, start < k < j ->
            contains e (line lines k)
            && contains g (join (map (line lines) (seq start (k - start))))
            = false))
  /\ (forall st e g m body c,
         st m = true ->
         (forall l, In l body -> contains e l = false) ->
         contains e c = true ->
         locate (Region st (guarded_end e g) through) (m :: body ++ [c])
         = if contains g (join (m :: body))
           then Some (0, length (m :: body ++ [c]))
           else None)
  /\ (forall st e g m body c post,
         st m = true ->
         (forall l, In l body -> contains e l = false) ->
         contains e c = true ->
         contains g (join (m :: body)) = true ->
         locate (Region st (guarded_end e g) through) (m :: body ++ c :: post)
         = Some (0, length (m :: body ++ [c])))
  /\ (forall st e g m body1 c body2 post,
         st m = true ->
         (forall l, In l (body1 ++ body2) -> contains e l = false) ->
         contains e c = true ->
         contains g (join (m :: body1)) = false ->
         contains g (join (m :: body1 ++ c :: body2)) = true ->
         locate (Region st (guarded_end e g) through)
                (m :: body1 ++ c :: body2 ++ c :: post)
         = Some (0, length (m :: body1 ++ c :: body2 ++ [c])))
  /\ locate cleanup_effect guarded_block = Some (0, 4)
  /\ locate cleanup_effect unguarded_block = None
  /\ locate cleanup_effect (guarded_block ++ unguarded_block) = Some (0, 4)
  /\ locate cleanup_effect unguarded_then_guarded = Some (0, 8).
Proof.
  split; [|split; [|split; [|split]]].
  - intros st e g lines start j. rewrite locate_Some. simpl.
    unfold guarded_end, through. split.
    + intros (Hs & j' & E & Hj & Ht & Hmin).
      assert (j' = j) by lia. subst j'.
      apply andb_prop in Ht as [He Hg].
      replace j with (start + (j - start)) in Hg at 1 by lia.
      rewrite slice_lines in Hg by lia.
      split; [exact Hs|]. split; [lia|]. split; [exact He|].
      split; [exact Hg|].
      intros k Hk. specialize (Hmin k Hk).
      replace k with (start + (k - start)) in Hmin at 2 by lia.
      rewrite slice_lines in Hmin by lia. exact Hmin.
    + intros (Hs & Hj & He & Hg & Hmin). split; [exact Hs|].
      exists j. split; [reflexivity|]. split; [lia|]. split.
      * rewrite He. replace j with (start + (j - start)) at 1 by lia.
        rewrite slice_lines by lia. exact Hg.
      * intros k Hk. specialize (Hmin k Hk).
        replace k with (start + (k - start)) at 2 by lia.
        rewrite slice_lines by lia. exact Hmin.
  - intros st e g m body c Hm Hbody Hc.
    assert (Hlen : length (m :: body ++ [c]) = S (S (length body))).
    { simpl. rewrite length_app. simpl. lia. }
    destruct (contains g (join (m :: body))) eqn:Hg.
    + rewrite Hlen. apply guarded_block_located; assumption.
    + apply locate_None. right. exists 0.
      split; [apply block_start; exact Hm|].
      intros j Hj. simpl. unfold guarded_end. rewrite Hlen in Hj.
      destruct (Nat.eq_dec j (S (length body))) as [->|Hne].
      * rewrite slice_block, Hg. apply andb_false_r.
      * rewrite (Hbody _ (nth_block_body m c body [] j ltac:(lia))). reflexivity.
  - intros st e g m body c post Hm Hbody Hc Hg.
    assert (Hlen : length (m :: body ++ [c]) = S (S (length body))).
    { simpl. rewrite length_app. simpl. lia. }
    rewrite Hlen. apply guarded_block_located; assumption.
  - intros st e g m body1 c body2 post.
    apply unguarded_block_joined.
  - repeat split; reflexivity.
Qed.

(** The amended statement at the sample file in which the block without
    the guard word comes first. *)
Lemma C4_guarded_end_excludes_current_line_witness :
  locate (Region (is_start cleanup_effect) (guarded_end "}, []);" "unmount") through)
         ("  // Cleanup effect (equivalent to componentWillUnmount)"
            :: ["  useEffect(() => {"; "    load();"]
            ++ "  }, []);"
            :: ["  // Cleanup effect (equivalent to componentWillUnmount)";
                "  useEffect(() => {"; "    return () => { unmount(); };"]
            ++ "  }, []);" :: ["  const after = 1;"])
  = Some (0, 8).
Proof.
  destruct C4_guarded_end_excludes_current_line as (_ & _ & _ & H & _).
  rewrite H.
  - reflexivity.
  - reflexivity.
  - intros l [<-|[<-|[<-|[<-|[<-|[]]]]]]; reflexivity.
  - reflexivity.
  - reflexivity.
  - reflexivity.
Defined.

(** C4, as stated, fails twice.  On [one_line_cleanup] line 1 contains the
    end literal and the guard occurs in the text of lines 0 and 1 taken
    together, yet the scan records nothing, because the guard is looked
    for in line 0 alone.  And on [unguarded_then_guarded], two blocks with
    the same closing line of which only the second holds the guard, the
    interval recorded starts at line 0: the block without the guard is
    removed with the other one. *)
Lemma C4_counterexample :
  ~ (forall lines start j,
        starts_at (is_start cleanup_effect) lines start ->
        start < j < length lines ->
        guarded_end_inclusive "}, []);" "unmount" lines start j = true ->
        (forall k, start < k < j ->
              guarded_end_inclusive "}, []);" "unmount" lines start k = false) ->
        locate cleanup_effect lines = Some (start, j + 1))
  /\ ~ (forall m body1 c body2 start e,
           is_start cleanup_effect m = true ->
           (forall l, In l (body1 ++ body2) -> contains "}, []);" l = false) ->
           contains "}, []);" c = true ->
           contains "unmount" (join (m :: body1 ++ [c])) = false ->
           contains "unmount" (join body2) = true ->
           locate cleanup_effect ((m :: body1 ++ [c]) ++ body2 ++ [c])
           = Some (start, e) ->
           length (m :: body1 ++ [c]) <= start).
Proof.
  split.
  - intros H. specialize (H one_line_cleanup 0 1).
    assert (Hcode : locate cleanup_effect one_line_cleanup = None) by reflexivity.
    rewrite Hcode in H. discriminate H.
    + split; [simpl; lia|]. split; [reflexivity|]. intros i Hi. lia.
    + simpl. lia.
    + reflexivity.
    + intros k Hk. lia.
  - intros H.
    specialize (H "  // Cleanup effect (equivalent to componentWillUnmount)"
                  ["  useEffect(() => {"; "    load();"]
                  "  }, []);"
                  ["  // Cleanup effect (equivalent to componentWillUnmount)";
                   "  useEffect(() => {"; "    return () => { unmount(); };"]
                  0 8 eq_refl).
    assert (Hle : 4 <= 0); [|lia].
    apply H; try reflexivity.
    intros l [<-|[<-|[<-|[<-|[<-|[]]]]]]; reflexivity.
Qed.

(** C3 (amended).  A region whose start marker is found and whose end
    condition holds at no later line contributes no interval, exactly as
    a region whose marker is absent; the intervals collected are those of
    the scans that reached an end, and the script goes on to write the
    lines that none of them covers: it raises no error for that file and
    does not drop the rest of the file. *)
Theorem C3_unterminated_region_is_skipped :
  forall content,
    let lines := split_lines content in
    (forall r, unterminated r lines -> locate r lines = None)
    /\ (unterminated_handleFieldBlur lines -> locate_handleFieldBlur lines = None)
    /\ remove_ranges lines = omap (fun scan => scan lines) scans
    /\ run (Some content)
       = Written (join_lines (retained lines (remove_ranges lines))).
Proof.
  intros content lines. split; [|split; [|split]].
  - intros r (start & Hs & Hend). apply locate_None. right.
    exists start. auto.
  - intros (start & Hs & Hend).
    rewrite (locate_handleFieldBlur_first_from lines start Hs).
    assert (Hnone : first_from
              (fun j => (counter_after lines start j =? 0)%Z && (start <? j))
              start (length lines) = None).
    { apply first_from_None. intros k Hk.
      destruct (Nat.eq_dec k start) as [->|Hne].
      - rewrite Nat.ltb_irrefl. apply andb_false_r.
      - specialize (Hend k ltac:(lia)).
        apply Z.eqb_neq in Hend. rewrite Hend. reflexivity. }
    rewrite Hnone. reflexivity.
  - apply collect_omap.
  - unfold run. fold lines. rewrite apply_ranges_retained. reflexivity.
Qed.

Lemma open_focus_listener_unterminated :
  unterminated focus_listener (split_lines open_focus_listener).
Proof.
  exists 0. split.
  - split; [simpl; lia|]. split; [reflexivity|]. intros i Hi. lia.
  - intros j Hj. simpl in Hj. assert (j = 1) by lia. subst j. reflexivity.
Qed.

(** The amended statement at a file whose focus-listener marker is never
    followed by the closing text. *)
Lemma C3_unterminated_region_is_skipped_witness :
  locate focus_listener (split_lines open_focus_listener) = None.
Proof.
  destruct (C3_unterminated_region_is_skipped open_focus_listener) as (H & _).
  apply H. exact open_focus_listener_unterminated.
Defined.

(** C3, as stated, fails: with the focus-listener marker present and its
    closing text absent the script raises nothing and writes the file
    back. *)
Lemma C3_counterexample :
  ~ (forall content r,
        unterminated r (split_lines content) -> run (Some content) = Raised).
Proof.
  intros H.
  specialize (H open_focus_listener focus_listener open_focus_listener_unterminated).
  assert (Hrun : run (Some open_focus_listener) = Written open_focus_listener)
    by reflexivity.
  rewrite Hrun in H. discriminate H.
Qed.

End Guards.


(** ** The matcher and the language of a pattern *)

#[local] Arguments String.append !s1 s2 : simpl nomatch.

Section Strings.

Lemma append_nil_r (s : string) : s +:+ EmptyString = s.
Proof. induction s as [|c s IH]; simpl; [reflexivity | rewrite IH; reflexivity]. Qed.

Lemma append_assoc (a b c : string) : (a +:+ b) +:+ c = a +:+ (b +:+ c).
Proof. induction a as [|x a IH]; simpl; [reflexivity | rewrite IH; reflexivity]. Qed.

Lemma length_append (a b : string) :
  String.length (a +:+ b) = String.length a + String.length b.
Proof. induction a as [|x a IH]; simpl; [reflexivity | rewrite IH; reflexivity]. Qed.

Lemma append_inv_head (a b c : string) : a +:+ b = a +:+ c -> b = c.
Proof. induction a as [|x a IH]; simpl; intros H; [exact H|]. injection H. exact IH. Qed.

End Strings.

Section Matching.
Import Text Re.

Lemma drop_prefix_Some l : forall s rest,
  drop_prefix l s = Some rest <-> s = l +:+ rest.
Proof.
  induction l as [|a l IH]; intros s rest; simpl.
  - split; [intros [= ->]; reflexivity | intros ->; reflexivity].
  - destruct s as [|b s]; [split; discriminate|].
    destruct (Ascii.eqb a b) eqn:E.
    + apply Ascii.eqb_eq in E. subst b. rewrite IH.
      split; [intros ->; reflexivity | intros [= ->]; reflexivity].
    + apply Ascii.eqb_neq in E. split; [discriminate|]. intros [= -> _].
      congruence.
Qed.

Context {A : Type}.
Implicit Types (k : @cont A) (p : ascii -> bool).

Lemma star_greedy_sound p : forall s k x,
  star_greedy p s k = Some x ->
  exists w rest, s = w +:+ rest /\ all_in p w = true /\ k w rest = Some x.
Proof.
  induction s as [|c s IH]; intros k x; simpl.
  - intros H. exists EmptyString, EmptyString. auto.
  - destruct (p c) eqn:Hc.
    + destruct (star_greedy p s (fun w rest => k (String c w) rest)) as [y|] eqn:Hin.
      * intros [= ->]. apply IH in Hin. destruct Hin as (w & rest & -> & Hall & Hk).
        exists (String c w), rest. simpl. rewrite Hc, Hall. auto.
      * intros H. exists EmptyString, (String c s). auto.
    + intros H. exists EmptyString, (String c s). auto.
Qed.

Lemma star_lazy_sound p : forall s k x,
  star_lazy p s k = Some x ->
  exists w rest, s = w +:+ rest /\ all_in p w = true /\ k w rest = Some x.
Proof.
  induction s as [|c s IH]; intros k x; simpl.
  - destruct (k EmptyString EmptyString) eqn:Hk; [|discriminate].
    intros [= ->]. exists EmptyString, EmptyString. auto.
  - destruct (k EmptyString (String c s)) eqn:Hk.
    + intros [= ->]. exists EmptyString, (String c s). auto.
    + destruct (p c) eqn:Hc; [|discriminate].
      intros Hin. apply IH in Hin. destruct Hin as (w & rest & -> & Hall & Hk').
      exists (String c w), rest. simpl. rewrite Hc, Hall. auto.
Qed.

Lemma star_sound g p s k x :
  star g p s k = Some x ->
  exists w rest, s = w +:+ rest /\ all_in p w = true /\ k w rest = Some x.
Proof. destruct g; [apply star_greedy_sound | apply star_lazy_sound]. Qed.

Lemma star_greedy_fallback p s k :
  is_Some (k EmptyString s) -> is_Some (star_greedy p s k).
Proof.
  intros H. destruct s as [|c s]; simpl; [exact H|].
  destruct (p c); [|exact H].
  destruct (star_greedy p s _); [eauto | exact H].
Qed.

Lemma star_greedy_complete p rest : forall w k,
  all_in p w = true -> is_Some (k w rest) ->
  is_Some (star_greedy p (w +:+ rest) k).
Proof.
  induction w as [|c w IH]; intros k Hall Hk; simpl.
  - apply star_greedy_fallback. exact Hk.
  - simpl in Hall. apply andb_prop in Hall as [Hc Hall]. rewrite Hc.
    specialize (IH (fun w rest => k (String c w) rest) Hall Hk).
    destruct IH as [y Hy]. rewrite Hy. eauto.
Qed.

Lemma star_lazy_complete p rest : forall w k,
  all_in p w = true -> is_Some (k w rest) ->
  is_Some (star_lazy p (w +:+ rest) k).
Proof.
  induction w as [|c w IH]; intros k Hall Hk; simpl.
  - destruct Hk as [y Hy]. destruct rest; simpl; rewrite Hy; eauto.
  - simpl in Hall. apply andb_prop in Hall as [Hc Hall].
    destruct (k EmptyString (String c (w +:+ rest))); [eauto|].
    rewrite Hc. apply IH; assumption.
Qed.

Lemma star_complete g p rest w k :
  all_in p w = true -> is_Some (k w rest) -> is_Some (star g p (w +:+ rest) k).
Proof. destruct g; [apply star_greedy_complete | apply star_lazy_complete]. Qed.

(** Whatever the matcher returns comes from a split of the text whose first
    part is in the language of the pattern. *)
Lemma rmatch_sound r : forall s k x,
  rmatch r s k = Some x ->
  exists w rest, s = w +:+ rest /\ lang r w /\ k w rest = Some x.
Proof.
  induction r as [l|p|g p|g p|r IH|r1 IH1 r2 IH2|r1 IH1 r2 IH2];
    intros s k x; simpl.
  - destruct (drop_prefix l s) as [rest|] eqn:Hd; [|discriminate].
    apply drop_prefix_Some in Hd. intros Hk. exists l, rest. auto.
  - destruct s as [|c s]; [discriminate|].
    destruct (p c) eqn:Hc; [|discriminate].
    intros Hk. exists (String c EmptyString), s. eauto.
  - apply star_sound.
  - destruct s as [|c s]; [discriminate|].
    destruct (p c) eqn:Hc; [|discriminate].
    intros H. apply star_sound in H. destruct H as (w & rest & -> & Hall & Hk).
    exists (String c w), rest. simpl. rewrite Hc, Hall.
    split; [reflexivity|]. split; [split; [discriminate | reflexivity] | exact Hk].
  - destruct (rmatch r s k) as [y|] eqn:Hr.
    + intros [= ->]. apply IH in Hr. destruct Hr as (w & rest & -> & Hl & Hk).
      exists w, rest. auto.
    + intros Hk. exists EmptyString, s. auto.
  - destruct (rmatch r1 s k) as [y|] eqn:Hr.
    + intros [= ->]. apply IH1 in Hr. destruct Hr as (w & rest & -> & Hl & Hk).
      exists w, rest. auto.
    + intros Hr2. apply IH2 in Hr2. destruct Hr2 as (w & rest & -> & Hl & Hk).
      exists w, rest. auto.
  - intros H. apply IH1 in H. destruct H as (w1 & s1 & -> & Hl1 & H).
    apply IH2 in H. destruct H as (w2 & s2 & -> & Hl2 & Hk).
    exists (w1 +:+ w2), s2. rewrite append_assoc.
    split; [reflexivity|]. split; [|exact Hk]. exists w1, w2. auto.
Qed.

(** The matcher tries every split: if some split puts a word of the
    language in front of a text the continuation accepts, it succeeds. *)
Lemma rmatch_complete r : forall w rest k,
  lang r w -> is_Some (k w rest) -> is_Some (rmatch r (w +:+ rest) k).
Proof.
  induction r as [l|p|g p|g p|r IH|r1 IH1 r2 IH2|r1 IH1 r2 IH2];
    intros w rest k; simpl.
  - intros -> Hk.
    assert (Hd : drop_prefix l (l +:+ rest) = Some rest)
      by (apply drop_prefix_Some; reflexivity).
    rewrite Hd. exact Hk.
  - intros (c & -> & Hc) Hk. simpl. rewrite Hc. exact Hk.
  - apply star_complete.
  - intros [Hne Hall] Hk. destruct w as [|c w]; [congruence|].
    simpl in Hall |- *. apply andb_prop in Hall as [Hc Hall]. rewrite Hc.
    apply star_complete; assumption.
  - intros [-> | Hl] Hk.
    + simpl. destruct (rmatch r rest k); [eauto | exact Hk].
    + destruct (IH w rest k Hl Hk) as [y Hy]. rewrite Hy. eauto.
  - intros [Hl | Hl] Hk.
    + destruct (IH1 w rest k Hl Hk) as [y Hy]. rewrite Hy. eauto.
    + destruct (rmatch r1 (w +:+ rest) k); [eauto|]. apply IH2; assumption.
  - intros (u & v & -> & Hu & Hv) Hk. rewrite append_assoc.
    apply IH1; [exact Hu|]. apply IH2; assumption.
Qed.

End Matching.

Section Groups.
Import Text Re.

Lemma match_groups_sound {A} gs : forall s (k : list string -> string -> option A) x,
  match_groups gs s k = Some x ->
  exists ws rest, s = join ws +:+ rest /\ Forall2 lang gs ws /\ k ws rest = Some x.
Proof.
  induction gs as [|g gs IH]; intros s k x; simpl.
  - intros Hk. exists [], s. auto.
  - intros H. apply rmatch_sound in H. destruct H as (w & s1 & -> & Hl & H).
    apply IH in H. destruct H as (ws & rest & -> & Hls & Hk).
    exists (w :: ws), rest. simpl. rewrite append_assoc. auto.
Qed.

Lemma match_groups_complete {A} gs : forall ws rest (k : list string -> string -> option A),
  Forall2 lang gs ws -> is_Some (k ws rest) ->
  is_Some (match_groups gs (join ws +:+ rest) k).
Proof.
  induction gs as [|g gs IH]; intros ws rest k Hls Hk.
  - inversion Hls; subst. exact Hk.
  - inversion Hls as [|g' w gs' ws' Hl Hls']; subst. simpl.
    rewrite append_assoc. apply rmatch_complete; [exact Hl|].
    apply IH; assumption.
Qed.

Lemma match_at_sound gs s ws rest :
  match_at gs s = Some (ws, rest) ->
  s = join ws +:+ rest /\ Forall2 lang gs ws.
Proof.
  unfold match_at. intros H. apply match_groups_sound in H.
  destruct H as (ws' & rest' & -> & Hls & [= -> ->]). auto.
Qed.

Lemma match_at_complete gs ws rest :
  Forall2 lang gs ws -> is_Some (match_at gs (join ws +:+ rest)).
Proof.
  intros Hls. unfold match_at. apply match_groups_complete; eauto.
Qed.

(** [search] succeeds exactly on the texts in which the pattern occurs. *)
Lemma search_occurs r s : search r s = true <-> occurs r s.
Proof.
  split.
  - induction s as [|c s IH]; simpl.
    + destruct (rmatch r EmptyString (fun _ _ => Some tt)) as [u|] eqn:Hm; [|discriminate].
      intros _. apply rmatch_sound in Hm. destruct Hm as (w & rest & E & Hl & _).
      exists EmptyString, w, rest. auto.
    + destruct (rmatch r (String c s) (fun _ _ => Some tt)) as [u|] eqn:Hm.
      * intros _. apply rmatch_sound in Hm. destruct Hm as (w & rest & E & Hl & _).
        exists EmptyString, w, rest. auto.
      * intros H. destruct (IH H) as (pre & w & post & -> & Hl).
        exists (String c pre), w, post. auto.
  - intros (pre & w & post & -> & Hl).
    induction pre as [|c pre IH]; simpl.
    + assert (Hm : is_Some (rmatch r (w +:+ post) (fun _ _ => Some tt)))
        by (apply rmatch_complete; eauto).
      destruct Hm as [u Hu].
      destruct (w +:+ post); simpl; rewrite Hu; reflexivity.
    + destruct (rmatch r _ (fun _ _ => Some tt)); [reflexivity | exact IH].
Qed.

End Groups.

(** ** The classifier (migrate_app_js_to_ts.py, lines 45-59) *)

Section Classifier.
Import Text Re FS Migrate.

Lemma should_force_tsx_component_like p :
  should_force_tsx p = true <-> component_like p.
Proof.
  unfold should_force_tsx, component_like, FORCE_TSX_SEGMENTS.
  rewrite bool_decide_eq_true. split.
  - intros Hne. apply set_choose_L in Hne. destruct Hne as [seg Hseg].
    exists seg. apply elem_of_intersection in Hseg as [Hf Hp].
    apply elem_of_list_to_set, list_elem_of_In in Hp. split; [exact Hp|].
    rewrite !elem_of_union, !elem_of_singleton in Hf. tauto.
  - intros (seg & Hin & Hseg) Hempty.
    assert (Hmem : seg ∈ ({["components"; "screens"; "templates"]} : gset string)
                         ∩ list_to_set p).
    { apply elem_of_intersection. split.
      - destruct Hseg as [->|[->| ->]]; set_solver.
      - apply elem_of_list_to_set, list_elem_of_In. exact Hin. }
    rewrite Hempty in Hmem. set_solver.
Qed.

Lemma should_force_tsx_component_like_false p :
  should_force_tsx p = false <-> ~ component_like p.
Proof.
  rewrite <- should_force_tsx_component_like.
  destruct (should_force_tsx p); split; intros H; try reflexivity;
    try discriminate; try congruence; try (exfalso; apply H; reflexivity).
Qed.

Lemma contains_jsx_signature text :
  contains_jsx text = true <-> has_jsx_signature text.
Proof.
  unfold contains_jsx, has_jsx_signature, JSX_SNIPPETS. simpl.
  rewrite orb_false_r, !orb_true_iff, !search_occurs. reflexivity.
Qed.

Lemma all_in_append p a b :
  all_in p (a +:+ b) = all_in p a && all_in p b.
Proof.
  induction a as [|c a IH]; simpl; [reflexivity|].
  rewrite IH. apply andb_assoc.
Qed.

(** Each signature needs a slash or a closing angle bracket. *)
Lemma jsx_needs_slash_or_gt text :
  all_in (none_of ["/"%char; ">"%char]) text = true -> ~ has_jsx_signature text.
Proof.
  intros Hall [H|[H|H]]; destruct H as (pre & w & post & -> & Hl);
    rewrite !all_in_append in Hall;
    apply andb_prop in Hall as [_ Hall]; apply andb_prop in Hall as [Hw _];
    simpl in Hl.
  - destruct Hl as (u & v & -> & -> & _). simpl in Hw. discriminate.
  - destruct Hl as (u1 & v1 & -> & -> & u2 & v2 & -> & _ & u3 & v3 & -> & _
                    & u4 & v4 & -> & _ & u5 & v5 & -> & _ & ->).
    rewrite !all_in_append in Hw. simpl in Hw.
    repeat (apply andb_prop in Hw as [_ Hw]). discriminate.
  - destruct Hl as (u1 & v1 & -> & -> & u2 & v2 & -> & _ & u3 & v3 & -> & _
                    & u4 & v4 & -> & _ & u5 & v5 & -> & _ & u6 & v6 & -> & _ & ->).
    rewrite !all_in_append in Hw. simpl in Hw.
    repeat (apply andb_prop in Hw as [_ Hw]). discriminate.
Qed.

(** A [<], a name that starts with a letter, a white space, any text
    without a closing angle bracket and a closing angle bracket form an
    opening tag in the classifier's sense. *)
Lemma opening_tag_occurs pre c name d mid post :
  letter c = true -> all_in alnum name = true -> ws d = true ->
  all_in not_gt mid = true ->
  occurs opening_tag
         (pre +:+ ("<" +:+ String c name +:+ String d mid +:+ ">") +:+ post).
Proof.
  intros Hc Hname Hd Hmid.
  exists pre, ("<" +:+ String c name +:+ String d mid +:+ ">"), post.
  split; [reflexivity|].
  exists "<", (String c name +:+ String d mid +:+ ">"). split; [reflexivity|].
  split; [reflexivity|].
  exists EmptyString, (String c name +:+ String d mid +:+ ">").
  split; [reflexivity|]. split; [reflexivity|].
  exists (String c EmptyString), (name +:+ String d mid +:+ ">").
  split; [reflexivity|]. split; [exists c; auto|].
  exists name, (String d mid +:+ ">"). split; [reflexivity|].
  split; [exact Hname|].
  exists (String d EmptyString), (mid +:+ ">"). split; [reflexivity|].
  split; [exists d; auto|].
  exists mid, ">". split; [reflexivity|]. split; [exact Hmid | reflexivity].
Qed.

(** C7 (amended).  The classifier answers [.tsx] exactly when some part of
    the path is one of [components], [screens], [templates] or the content
    has a substring that is a closing tag, a self-closing tag or an opening
    tag followed by white space (tag names start with a letter), and [.ts]
    otherwise.  Outside the component-like folders the content [a < b]
    alone, the content [Map<string>] alone, and every content with neither
    a slash nor a closing angle bracket get [.ts]; a content in which [<],
    a name, a white space and, later, a closing angle bracket follow one
    another gets [.tsx]. *)
Theorem C7_target_extension_classification :
  (forall p text,
      target_extension p text = ".tsx" <-> component_like p \/ has_jsx_signature text)
  /\ (forall p text,
         ~ (component_like p \/ has_jsx_signature text) ->
         target_extension p text = ".ts")
  /\ (forall p,
         ~ component_like p ->
         target_extension p "a < b" = ".ts"
         /\ target_extension p "Map<string>" = ".ts")
  /\ (forall p text,
         ~ component_like p ->
         all_in (none_of ["/"%char; ">"%char]) text = true ->
         target_extension p text = ".ts")
  /\ (forall p pre c name d mid post,
         letter c = true -> all_in alnum name = true -> ws d = true ->
         all_in not_gt mid = true ->
         target_extension p
           (pre +:+ ("<" +:+ String c name +:+ String d mid +:+ ">") +:+ post)
         = ".tsx").
Proof.
  assert (Hiff : forall p text,
             target_extension p text = ".tsx"
             <-> component_like p \/ has_jsx_signature text).
  { intros p text. unfold target_extension.
    rewrite <- should_force_tsx_component_like, <- contains_jsx_signature.
    destruct (should_force_tsx p), (contains_jsx text); split; intros H;
      try reflexivity; try discriminate; auto.
    destruct H; discriminate. }
  assert (Helse : forall p text,
             ~ (component_like p \/ has_jsx_signature text) ->
             target_extension p text = ".ts").
  { intros p text. unfold target_extension.
    rewrite <- should_force_tsx_component_like, <- contains_jsx_signature.
    destruct (should_force_tsx p), (contains_jsx text); intros H;
      try reflexivity; exfalso; apply H; auto. }
  split; [exact Hiff|]. split; [exact Helse|]. split; [|split].
  - intros p Hp.
    apply should_force_tsx_component_like_false in Hp.
    unfold target_extension. rewrite Hp. split; reflexivity.
  - intros p text Hp Hall. apply Helse. intros [H|H]; [exact (Hp H)|].
    exact (jsx_needs_slash_or_gt text Hall H).
  - intros p pre c name d mid post Hc Hname Hd Hmid. apply Hiff. right.
    right. right. apply opening_tag_occurs; assumption.
Qed.

(** The amended statement at a file of a [utils] folder. *)
Lemma C7_target_extension_classification_witness :
  target_extension ["utils"; "compare.js"] "a < b" = ".ts"
  /\ target_extension ["utils"; "compare.js"] "Map<string>" = ".ts".
Proof.
  destruct C7_target_extension_classification as (_ & _ & H & _ & _).
  apply H. apply should_force_tsx_component_like_false. reflexivity.
Defined.

(** C7, as stated, fails: in the content made of the line [a < b] followed
    by the line [Map<string>] the text from the comparison sign to the end
    is an opening tag in the classifier's sense (the name [b], white space,
    then anything up to a closing angle bracket), and a file outside the
    component-like folders gets [.tsx]. *)
Lemma C7_counterexample :
  ~ (forall p text,
        ~ component_like p ->
        Forall (fun l => l = "a < b" \/ l = "Map<string>") (split_lines text) ->
        target_extension p text = ".ts").
Proof.
  intros H. specialize (H ["utils"; "compare.js"] comparison_then_generic).
  assert (Hcode : target_extension ["utils"; "compare.js"] comparison_then_generic
                  = ".tsx") by reflexivity.
  rewrite Hcode in H. discriminate H.
  - apply should_force_tsx_component_like_false. reflexivity.
  - change (split_lines comparison_then_generic) with ["a < b"; "Map<string>"].
    constructor; [left; reflexivity|]. constructor; [right; reflexivity|].
    constructor.
Qed.

End Classifier.

(** ** The banner (migrate_app_js_to_ts.py, lines 62-66) *)

Section Banner.
Import Text Re FS Migrate.

Lemma ensure_banner_banner text :
  ensure_banner (TS_NOCHECK_BANNER +:+ text) = TS_NOCHECK_BANNER +:+ text.
Proof. reflexivity. Qed.

(** C9.  Applying the banner step twice gives what applying it once gives:
    a content that starts, after leading white space, with the line-comment
    or the block-comment marker is returned as it is; any other content
    gets the fixed banner in front, and the step leaves that result as it
    is. *)
Theorem C9_ensure_banner_idempotent :
  (forall text, ensure_banner (ensure_banner text) = ensure_banner text)
  /\ (forall text,
         startswith (lstrip text) "// @ts-nocheck"
         || startswith (lstrip text) "/* @ts-nocheck" = true ->
         ensure_banner text = text)
  /\ (forall text,
         startswith (lstrip text) "// @ts-nocheck"
         || startswith (lstrip text) "/* @ts-nocheck" = false ->
         ensure_banner text = TS_NOCHECK_BANNER +:+ text
         /\ ensure_banner (TS_NOCHECK_BANNER +:+ text) = TS_NOCHECK_BANNER +:+ text).
Proof.
  split; [|split].
  - intros text.
    destruct (startswith (lstrip text) "// @ts-nocheck"
              || startswith (lstrip text) "/* @ts-nocheck") eqn:H.
    + assert (E : ensure_banner text = text)
        by (unfold ensure_banner; rewrite H; reflexivity).
      rewrite !E. reflexivity.
    + assert (E : ensure_banner text = TS_NOCHECK_BANNER +:+ text)
        by (unfold ensure_banner; rewrite H; reflexivity).
      rewrite E. apply ensure_banner_banner.
  - intros text H. unfold ensure_banner. rewrite H. reflexivity.
  - intros text H. split.
    + unfold ensure_banner. rewrite H. reflexivity.
    + apply ensure_banner_banner.
Qed.

(** The theorem at a content that carries the marker after two blanks and
    at one that does not carry it. *)
Lemma C9_ensure_banner_idempotent_witness :
  ensure_banner "  // @ts-nocheck" = "  // @ts-nocheck"
  /\ ensure_banner "export {};" = TS_NOCHECK_BANNER +:+ "export {};".
Proof.
  destruct C9_ensure_banner_idempotent as (_ & H1 & H2). split.
  - apply H1. reflexivity.
  - apply H2. reflexivity.
Defined.

End Banner.

(** ** Collisions (migrate_app_js_to_ts.py, lines 69-90 and 102-112) *)

Section Collision.
Import Text Re FS Migrate.

Lemma exists_true (m : fs) p : is_Some (m !! p) -> exists_ m p = true.
Proof. intros H. unfold exists_. apply bool_decide_eq_true. exact H. Qed.

(** C8.  When the target path computed for a file already exists,
    [convert_file] returns without writing or deleting anything: the file
    system is the one it was given, so the source file still holds its
    content, and the main loop counts the file as skipped and goes on to the
    remaining files. *)
Theorem C8_collision_is_skipped :
  forall (m : fs) p dry_run text new_path,
    m !! p = Some text ->
    with_suffix p (target_extension p text) = Some new_path ->
    is_Some (m !! new_path) ->
    convert_file m p dry_run = (m, Skip)
    /\ fst (convert_file m p dry_run) !! p = Some text
    /\ forall files t,
         endswith (name p) ".js" = true ->
         main_loop dry_run (p :: files) m t
         = main_loop dry_run files m (Tally (conversions t) (skipped t + 1)).
Proof.
  intros m p dry_run text new_path Hp Hnew Hex.
  assert (Hconv : convert_file m p dry_run = (m, Skip)).
  { unfold convert_file. rewrite Hp, Hnew, (exists_true m new_path Hex).
    reflexivity. }
  split; [exact Hconv|]. split.
  - rewrite Hconv. exact Hp.
  - intros files t Hjs. simpl. rewrite Hjs, Hconv. reflexivity.
Qed.

(** The theorem on a folder that holds [a.js] next to an [a.ts]. *)
Lemma C8_collision_is_skipped_witness :
  convert_file {[ ["utils"; "a.js"] := "export {};";
                  ["utils"; "a.ts"] := "export default 1;" ]}
               ["utils"; "a.js"] false
  = ({[ ["utils"; "a.js"] := "export {};";
        ["utils"; "a.ts"] := "export default 1;" ]}, Skip).
Proof.
  apply (C8_collision_is_skipped _ ["utils"; "a.js"] false
           "export {};" ["utils"; "a.ts"]).
  - reflexivity.
  - reflexivity.
  - exists "export default 1;". reflexivity.
Defined.

End Collision.

(** ** Substitution passes (remove_js_import_extensions.py, lines 21-45) *)

Section Substitution.
Import Text Re.

Variable gs : list regex.
Variable repl : list string -> string.

Lemma no_match_tail c s : no_match gs (String c s) -> no_match gs s.
Proof.
  intros H pre post ->. apply (H (String c pre) post). reflexivity.
Qed.

Lemma no_match_head s : no_match gs s -> match_at gs s = None.
Proof. intros H. apply (H EmptyString s). reflexivity. Qed.

Lemma no_match_suffix pre s : no_match gs (pre +:+ s) -> no_match gs s.
Proof.
  intros H a b ->. apply (H (pre +:+ a) b). rewrite append_assoc. reflexivity.
Qed.

(** A pass over a text without a match changes nothing and counts
    nothing. *)
Lemma subn_loop_no_match : forall fuel s,
  no_match gs s -> subn_loop fuel gs repl s = (s, 0).
Proof.
  induction fuel as [|fuel IH]; intros s H; simpl; [reflexivity|].
  rewrite (no_match_head s H). destruct s as [|c s]; [reflexivity|].
  rewrite (IH s (no_match_tail c s H)). reflexivity.
Qed.

(** With fuel for every character, a count of zero means that no position
    matched. *)
Lemma subn_loop_zero : forall fuel s,
  String.length s < fuel ->
  snd (subn_loop fuel gs repl s) = 0 -> no_match gs s.
Proof.
  induction fuel as [|fuel IH]; intros s Hf; [lia|]. simpl.
  destruct (match_at gs s) as [[groups rest]|] eqn:Hm.
  - destruct (subn_loop fuel gs repl rest). simpl. discriminate.
  - destruct s as [|c s].
    + intros _ pre post E. destruct pre; [|discriminate].
      simpl in E. subst post. exact Hm.
    + destruct (subn_loop fuel gs repl s) as [out n] eqn:Hs. simpl.
      intros ->. assert (Hs' : no_match gs s).
      { apply IH; [simpl in Hf; lia | rewrite Hs; reflexivity]. }
      intros pre post E. destruct pre as [|d pre].
      * simpl in E. subst post. exact Hm.
      * simpl in E. injection E as _ E. exact (Hs' pre post E).
Qed.

Lemma subn_zero s : snd (subn gs repl s) = 0 <-> no_match gs s.
Proof.
  unfold subn. split.
  - apply subn_loop_zero. lia.
  - intros H. rewrite subn_loop_no_match by exact H. reflexivity.
Qed.

Hypothesis gs_consuming : consuming gs.

(** The fuel does not matter once there is some for every character. *)
Lemma subn_loop_fuel : forall f f' s,
  String.length s < f -> String.length s < f' ->
  subn_loop f gs repl s = subn_loop f' gs repl s.
Proof.
  induction f as [|f IH]; intros f' s Hf Hf'; [lia|].
  destruct f' as [|f']; [lia|]. simpl.
  destruct (match_at gs s) as [[groups rest]|] eqn:Hm.
  - pose proof (gs_consuming s groups rest Hm) as Hlt.
    rewrite (IH f' rest) by lia. reflexivity.
  - destruct s as [|c s]; [reflexivity|]. simpl in Hf, Hf'.
    rewrite (IH f' s) by lia. reflexivity.
Qed.

(** [subn] unfolded once, without fuel. *)
Lemma subn_unfold s :
  subn gs repl s
  = match match_at gs s with
    | Some (groups, rest) =>
        let (out, n) := subn gs repl rest in (repl groups +:+ out, S n)
    | None =>
        match s with
        | EmptyString => (EmptyString, 0)
        | String c s' => let (out, n) := subn gs repl s' in (String c out, n)
        end
    end.
Proof.
  unfold subn at 1. simpl.
  destruct (match_at gs s) as [[groups rest]|] eqn:Hm.
  - pose proof (gs_consuming s groups rest Hm) as Hlt. unfold subn.
    rewrite (subn_loop_fuel (String.length s) (S (String.length rest)) rest)
      by lia.
    reflexivity.
  - destruct s as [|c s]; [reflexivity|]. reflexivity.
Qed.

End Substitution.

(** ** The four reference patterns *)

Section Rewriter.
Import Text Re FS RemoveJs.

(** What a match of a pattern of the form [(h)(P+?)(\.js)(t)] looks like,
    when [t] starts with a quote. *)
Lemma match_at_reference h t s groups rest :
  (forall w, lang t w -> exists q b, w = String q b /\ quote q = true) ->
  match_at [h; Plus false path_char; Lit ".js"; t] s = Some (groups, rest) ->
  exists g1 g2 q b,
    groups = [g1; g2; ".js"; String q b]
    /\ s = g1 +:+ g2 +:+ ".js" +:+ String q b +:+ rest
    /\ lang h g1
    /\ g2 <> EmptyString /\ all_in path_char g2 = true
    /\ quote q = true
    /\ lang t (String q b).
Proof.
  intros Ht Hm. apply match_at_sound in Hm. destruct Hm as [-> Hl].
  inversion Hl as [|? g1 ? ws1 H1 Hl1]; subst.
  inversion Hl1 as [|? g2 ? ws2 H2 Hl2]; subst.
  inversion Hl2 as [|? g3 ? ws3 H3 Hl3]; subst.
  inversion Hl3 as [|? g4 ? ws4 H4 Hl4]; subst.
  inversion Hl4; subst.
  simpl in H2, H3. subst g3. destruct H2 as [Hne Hall].
  destruct (Ht g4 H4) as (q & b & -> & Hq).
  exists g1, g2, q, b. simpl. rewrite append_nil_r, !append_assoc. auto 10.
Qed.

Lemma quote_then_more (r : regex) w :
  lang (Cls quote @@ r) w -> exists q b, w = String q b /\ quote q = true.
Proof.
  simpl. intros (u & v & -> & (q & -> & Hq) & _). exists q, v. auto.
Qed.

Lemma quote_only w :
  lang (Cls quote) w -> exists q b, w = String q b /\ quote q = true.
Proof. simpl. intros (q & -> & Hq). exists q, EmptyString. auto. Qed.

Lemma quote_last w :
  lang (Cls quote) w ->
  exists x q, w = x +:+ String q EmptyString /\ quote q = true.
Proof. simpl. intros (q & -> & Hq). exists EmptyString, q. auto. Qed.

Lemma seq_quote_last (r1 r2 : regex) :
  (forall w, lang r2 w ->
        exists x q, w = x +:+ String q EmptyString /\ quote q = true) ->
  forall w, lang (r1 @@ r2) w ->
       exists x q, w = x +:+ String q EmptyString /\ quote q = true.
Proof.
  intros H w (u & v & -> & _ & Hv). destruct (H v Hv) as (x & q & -> & Hq).
  exists (u +:+ x), q. rewrite append_assoc. auto.
Qed.

Lemma patterns_reference gs : In gs patterns -> reference_pattern gs.
Proof.
  intros [<-|[<-|[<-|[<-|[]]]]]; eexists _, _; (split; [reflexivity|]);
    (split; [repeat apply seq_quote_last; exact quote_last|]);
    first [exact quote_only | apply quote_then_more].
Qed.

Lemma reference_consuming gs : reference_pattern gs -> consuming gs.
Proof.
  intros (h & t & -> & _ & Ht) s groups rest Hm.
  destruct (match_at_reference h t s groups rest Ht Hm)
    as (g1 & g2 & q & b & _ & -> & _).
  rewrite !length_append. simpl. lia.
Qed.

Lemma js_removal_prefix x t t' : js_removal t t' -> js_removal (x +:+ t) (x +:+ t').
Proof.
  intros (a & q & b & Hq & -> & ->). exists (x +:+ a), q, b.
  rewrite !append_assoc. auto.
Qed.

Lemma removals_prefix x t t' :
  rtc js_removal t t' -> rtc js_removal (x +:+ t) (x +:+ t').
Proof.
  induction 1 as [t|t u v Hstep _ IH]; [apply rtc_refl|].
  eapply rtc_l; [apply js_removal_prefix; exact Hstep | exact IH].
Qed.

(** A pass only takes out [.js] in front of quotes. *)
Lemma subn_loop_removals gs : reference_pattern gs -> forall fuel s,
  rtc js_removal s (fst (subn_loop fuel gs strip_suffix s)).
Proof.
  intros (h & t & -> & _ & Ht). induction fuel as [|fuel IH]; intros s; simpl.
  - apply rtc_refl.
  - destruct (match_at _ s) as [[groups rest]|] eqn:Hm.
    + destruct (match_at_reference h t s groups rest Ht Hm)
        as (g1 & g2 & q & b & -> & -> & _ & _ & _ & Hq & _).
      specialize (IH rest).
      destruct (subn_loop fuel _ strip_suffix rest) as [out n]. simpl in IH |- *.
      change (strip_suffix [g1; g2; ".js"; String q b])
        with (g1 +:+ g2 +:+ String q b).
      eapply rtc_l.
      * exists (g1 +:+ g2), q, (b +:+ rest). split; [exact Hq|].
        split; [|reflexivity]. rewrite !append_assoc. reflexivity.
      * rewrite !append_assoc.
        change (String q (b +:+ rest)) with (String q b +:+ rest).
        change (String q (b +:+ out)) with (String q b +:+ out).
        rewrite <- !append_assoc. apply removals_prefix. exact IH.
    + destruct s as [|c s]; [apply rtc_refl|]. specialize (IH s).
      destruct (subn_loop fuel _ strip_suffix s) as [out n]. simpl in IH |- *.
      apply (removals_prefix (String c EmptyString) s out IH).
Qed.

Lemma rewrite_step_removals gs text updated :
  reference_pattern gs ->
  rtc js_removal text (fst (rewrite_step (text, updated) gs)).
Proof.
  intros Hgs. unfold rewrite_step, subn.
  pose proof (subn_loop_removals gs Hgs (S (String.length text)) text) as H.
  destruct (subn_loop _ gs strip_suffix text) as [new_text count].
  destruct (0 <? count); simpl in *; [exact H | apply rtc_refl].
Qed.

Lemma rewrite_with_removals ps : (forall gs, In gs ps -> reference_pattern gs) ->
  forall st, rtc js_removal (fst st) (fst (fold_left rewrite_step ps st)).
Proof.
  induction ps as [|gs ps IH]; intros Hps st; simpl; [apply rtc_refl|].
  destruct st as [text updated].
  eapply rtc_trans.
  - apply (rewrite_step_removals gs text updated). apply Hps. left. reflexivity.
  - apply IH. intros gs' Hin. apply Hps. right. exact Hin.
Qed.

Lemma process_text_removals text : rtc js_removal text (fst (process_text text)).
Proof.
  unfold process_text.
  destruct (negb (contains js_squote text) && negb (contains js_dquote text));
    [apply rtc_refl|].
  apply (rewrite_with_removals patterns patterns_reference (text, false)).
Qed.

(** A step of the loop on a text the pattern does not match. *)
Lemma rewrite_step_no_match gs text updated :
  no_match gs text -> rewrite_step (text, updated) gs = (text, updated).
Proof.
  intros H. unfold rewrite_step, subn.
  rewrite subn_loop_no_match by exact H. reflexivity.
Qed.

Lemma rewrite_with_no_match ps text : (forall gs, In gs ps -> no_match gs text) ->
  forall updated, fold_left rewrite_step ps (text, updated) = (text, updated).
Proof.
  induction ps as [|gs ps IH]; intros Hps updated; cbn [fold_left];
    [reflexivity|].
  rewrite rewrite_step_no_match by (apply Hps; left; reflexivity).
  apply IH. intros gs' Hin. apply Hps. right. exact Hin.
Qed.

Lemma process_text_no_match text :
  (forall gs, In gs patterns -> no_match gs text) ->
  process_text text = (text, false).
Proof.
  intros H. unfold process_text.
  destruct (negb (contains js_squote text) && negb (contains js_dquote text));
    [reflexivity|].
  apply rewrite_with_no_match. exact H.
Qed.

End Rewriter.


(** ** One reference between two quotes *)

Section References.
Import Text Re FS RemoveJs.

Lemma append_inv_tail (a b c : string) : a +:+ c = b +:+ c -> a = b.
Proof.
  revert b. induction a as [|x a IH]; intros [|y b] H; simpl in H.
  - reflexivity.
  - apply (f_equal String.length) in H. simpl in H. rewrite length_append in H. lia.
  - apply (f_equal String.length) in H. simpl in H. rewrite length_append in H. lia.
  - injection H as -> H. rewrite (IH b H). reflexivity.
Qed.

Lemma path_char_not_quote c : path_char c = true -> not_quote c = true.
Proof.
  unfold path_char, not_quote, none_of, quote, is_char. cbn [existsb].
  destruct (Ascii.eqb "'" c), (Ascii.eqb dquote c); cbn [negb orb];
    intros H; first [reflexivity | discriminate H].
Qed.

Lemma all_path_not_quote p : all_in path_char p = true -> all_in not_quote p = true.
Proof.
  induction p as [|c p IH]; simpl; [reflexivity|].
  intros H. apply andb_prop in H as [Hc Hp].
  rewrite (path_char_not_quote c Hc), (IH Hp). reflexivity.
Qed.

(** Two ways of cutting a text at a quote, the first one at its first
    quote. *)
Lemma first_quote_split a : forall x q1 q0 r r',
  all_in not_quote a = true -> quote q1 = true -> quote q0 = true ->
  a +:+ String q1 r = x +:+ String q0 r' ->
  (x = a /\ q0 = q1 /\ r' = r)
  \/ (exists x', x = a +:+ String q1 x' /\ r = x' +:+ String q0 r').
Proof.
  induction a as [|c a IH]; intros x q1 q0 r r' Ha Hq1 Hq0 E.
  - destruct x as [|d x]; simpl in E.
    + injection E as -> ->. left. auto.
    + injection E as -> ->. right. exists x. auto.
  - simpl in Ha. apply andb_prop in Ha as [Hc Ha].
    destruct x as [|d x]; simpl in E.
    + injection E as -> _. unfold not_quote in Hc. rewrite Hq0 in Hc. discriminate.
    + injection E as -> E.
      destruct (IH x q1 q0 r r' Ha Hq1 Hq0 E) as [(-> & -> & ->)|(x' & -> & ->)].
      * left. auto.
      * right. exists x'. auto.
Qed.

Lemma all_in_not_quote_quote y q z :
  quote q = true -> all_in not_quote (y +:+ String q z) = false.
Proof.
  intros Hq. rewrite all_in_append. simpl. unfold not_quote at 2. rewrite Hq.
  simpl. apply andb_false_r.
Qed.

(** A text with exactly two quotes is cut at two quotes in one way only. *)
Lemma two_quotes a b x y z q1 q2 q0 q :
  all_in not_quote a = true -> all_in not_quote b = true ->
  all_in not_quote y = true ->
  quote q1 = true -> quote q2 = true -> quote q0 = true -> quote q = true ->
  a +:+ String q1 (b +:+ String q2 EmptyString) = x +:+ String q0 (y +:+ String q z) ->
  x = a /\ y = b /\ z = EmptyString /\ q0 = q1 /\ q = q2.
Proof.
  intros Ha Hb Hy Hq1 Hq2 Hq0 Hq E.
  destruct (first_quote_split a x q1 q0 _ _ Ha Hq1 Hq0 E)
    as [(-> & -> & E1)|(x' & -> & E1)].
  - symmetry in E1.
    destruct (first_quote_split b y q2 q _ _ Hb Hq2 Hq E1)
      as [(-> & -> & ->)|(y' & -> & _)].
    + auto.
    + rewrite (all_in_not_quote_quote b q2 y' Hq2) in Hy. discriminate.
  - destruct (first_quote_split b x' q2 q0 _ _ Hb Hq2 Hq0 E1)
      as [(_ & _ & E2)|(x'' & _ & E2)].
    + destruct y; discriminate.
    + destruct x''; discriminate.
Qed.

(** In a text with exactly two quotes a reference pattern can only match
    when the text between the quotes ends with the suffix. *)
Lemma no_match_two_quotes gs a b q1 q2 :
  reference_pattern gs ->
  all_in not_quote a = true -> all_in not_quote b = true ->
  quote q1 = true -> quote q2 = true ->
  (forall stem, stem <> EmptyString -> all_in path_char stem = true ->
           b <> stem +:+ ".js") ->
  no_match gs (a +:+ String q1 (b +:+ String q2 EmptyString)).
Proof.
  intros (h & t & -> & Hh & Ht) Ha Hb Hq1 Hq2 Hstem pre post E.
  destruct (match_at _ post) as [[groups rest]|] eqn:Hm; [|reflexivity].
  exfalso.
  destruct (match_at_reference h t post groups rest Ht Hm)
    as (g1 & g2 & q & c & _ & -> & Hg1 & Hne & Hg2 & Hq & _).
  destruct (Hh g1 Hg1) as (x0 & q0 & -> & Hq0).
  assert (E' : a +:+ String q1 (b +:+ String q2 EmptyString)
               = (pre +:+ x0) +:+ String q0 ((g2 +:+ ".js") +:+ String q (c +:+ rest))).
  { rewrite E, !append_assoc. reflexivity. }
  assert (Hy : all_in not_quote (g2 +:+ ".js") = true).
  { rewrite all_in_append, (all_path_not_quote g2 Hg2). reflexivity. }
  destruct (two_quotes _ _ _ _ _ _ _ _ _ Ha Hb Hy Hq1 Hq2 Hq0 Hq E')
    as (_ & Hb' & _).
  apply (Hstem g2 Hne Hg2). symmetry. exact Hb'.
Qed.

Lemma prefix_append sub b : String.prefix sub (sub +:+ b) = true.
Proof.
  induction sub as [|c sub IH]; simpl; [destruct b; reflexivity|].
  destruct (ascii_dec c c); [exact IH | congruence].
Qed.

Lemma contains_prefix sub s : String.prefix sub s = true -> contains sub s = true.
Proof. destruct s; simpl; intros ->; reflexivity. Qed.

Lemma contains_middle sub a b : contains sub (a +:+ sub +:+ b) = true.
Proof.
  induction a as [|c a IH].
  - change (EmptyString +:+ sub +:+ b) with (sub +:+ b).
    apply contains_prefix. apply prefix_append.
  - change (String c a +:+ sub +:+ b) with (String c (a +:+ sub +:+ b)).
    cbn [contains]. rewrite IH. apply orb_true_r.
Qed.

(** A pass copies a prefix in which no match starts. *)
Lemma subn_skip_prefix gs repl pre : consuming gs -> forall s,
  (forall a c b, pre = a +:+ String c b -> match_at gs (String c b +:+ s) = None) ->
  subn gs repl (pre +:+ s)
  = let (out, n) := subn gs repl s in (pre +:+ out, n).
Proof.
  intros Hc. induction pre as [|c pre IH]; intros s H.
  - simpl. destruct (subn gs repl s). reflexivity.
  - rewrite (subn_unfold gs repl Hc).
    rewrite (H EmptyString c pre eq_refl).
    change (String c pre +:+ s) with (String c (pre +:+ s)). cbv iota.
    rewrite IH.
    + destruct (subn gs repl s). reflexivity.
    + intros a d b ->. apply (H (String c a) d b). reflexivity.
Qed.

Lemma from_head_lang g1 :
  lang (Lit "from" @@ Plus true ws @@ Cls quote) g1 ->
  exists d q0, g1 = "from" +:+ d +:+ String q0 EmptyString
               /\ d <> EmptyString /\ all_in ws d = true /\ quote q0 = true.
Proof.
  simpl. intros (u & v & -> & -> & d & v' & -> & [Hne Hd] & q0 & -> & Hq0).
  exists d, q0. auto.
Qed.

Lemma import_x_no_match s :
  forall a c b, "import x " = a +:+ String c b ->
                match_at IMPORT_RE (String c b +:+ s) = None.
Proof.
  intros a c b E.
  assert (Hc : Ascii.eqb "f" c = false).
  { repeat (destruct a as [|? a]; simpl in E;
            [injection E as <- _; reflexivity | injection E as _ E]).
    destruct a; discriminate E. }
  unfold match_at, IMPORT_RE.
  change (String c b +:+ s) with (String c (b +:+ s)).
  cbn [match_groups rmatch drop_prefix]. rewrite Hc. reflexivity.
Qed.

(** [import x from '<p>.js'] with a question mark in [p]: untouched. *)
Lemma import_from_question_mark p :
  all_in not_quote p = true -> all_in path_char p = false ->
  process_text ("import x from '" +:+ p +:+ ".js'")
  = ("import x from '" +:+ p +:+ ".js'", false).
Proof.
  intros Hq Hp. apply process_text_no_match. intros gs Hin.
  assert (E : "import x from '" +:+ p +:+ ".js'"
              = "import x from " +:+ String "'" ((p +:+ ".js") +:+ String "'" EmptyString)).
  { rewrite append_assoc. reflexivity. }
  rewrite E.
  apply (no_match_two_quotes gs "import x from " (p +:+ ".js") "'" "'"
           (patterns_reference gs Hin) eq_refl).
  - rewrite all_in_append, Hq. reflexivity.
  - reflexivity.
  - reflexivity.
  - intros stem _ Hs Es. apply append_inv_tail in Es. subst stem. congruence.
Qed.

End References.

(** ** Running the rewriter again, and the two [from] patterns *)

Section Passes.
Import Text Re FS RemoveJs.

(** A match of the [import ... from] pattern ends with a match of the plain
    [from] pattern. *)
Lemma no_match_IMPORT_EXPORT text :
  no_match IMPORT_RE text -> no_match EXPORT_RE text.
Proof.
  intros H pre post E.
  destruct (match_at EXPORT_RE post) as [[groups rest]|] eqn:Hm; [|reflexivity].
  exfalso. apply match_at_sound in Hm. destruct Hm as [-> Hl].
  inversion Hl as [|? w1 ? ws1 H1 Hl1]; subst.
  inversion Hl1 as [|? w2 ? ws2 H2 Hl2]; subst.
  inversion Hl2 as [|? w3 ? ws3 H3 Hl3]; subst.
  inversion Hl3 as [|? w4 ? ws4 H4 Hl4]; subst.
  inversion Hl4; subst.
  cbn [lang] in H1.
  destruct H1 as (u1 & v1 & -> & _ & u2 & v2 & -> & _ & u3 & v3 & -> & _
                  & u4 & v4 & -> & _ & Hhead).
  assert (Hfrom : Forall2 lang IMPORT_RE [v4; w2; w3; w4]).
  { constructor; [exact Hhead|]. constructor; [exact H2|].
    constructor; [exact H3|]. constructor; [exact H4|]. constructor. }
  destruct (match_at_complete IMPORT_RE _ rest Hfrom) as [m Hm].
  rewrite (H (pre +:+ u1 +:+ u2 +:+ u3 +:+ u4)
             (join [v4; w2; w3; w4] +:+ rest)) in Hm; [discriminate|].
  simpl. rewrite !append_assoc. reflexivity.
Qed.

Lemma rewrite_step_true text gs : snd (rewrite_step (text, true) gs) = true.
Proof.
  unfold rewrite_step. destruct (subn gs strip_suffix text) as [new_text count].
  destruct (0 <? count); reflexivity.
Qed.

Lemma rewrite_with_true ps : forall text,
  snd (fold_left rewrite_step ps (text, true)) = true.
Proof.
  induction ps as [|gs ps IH]; intros text; cbn [fold_left]; [reflexivity|].
  pose proof (rewrite_step_true text gs) as H.
  destruct (rewrite_step (text, true) gs) as [t u]. simpl in H. subst u.
  apply IH.
Qed.

(** A run that reports no update returns the text it was given. *)
Lemma rewrite_with_unchanged ps : forall text,
  snd (fold_left rewrite_step ps (text, false)) = false ->
  fold_left rewrite_step ps (text, false) = (text, false).
Proof.
  induction ps as [|gs ps IH]; intros text; cbn [fold_left]; [reflexivity|].
  assert (Hstep : rewrite_step (text, false) gs = (text, false)
                  \/ exists t, rewrite_step (text, false) gs = (t, true)).
  { unfold rewrite_step. destruct (subn gs strip_suffix text) as [new_text count].
    destruct (0 <? count); eauto. }
  destruct Hstep as [-> | [t ->]]; [apply IH|].
  rewrite rewrite_with_true. discriminate.
Qed.

Lemma process_text_unchanged text :
  snd (process_text text) = false -> fst (process_text text) = text.
Proof.
  unfold process_text.
  destruct (negb (contains js_squote text) && negb (contains js_dquote text));
    [reflexivity|].
  intros H. unfold rewrite_with in *. rewrite rewrite_with_unchanged by exact H.
  reflexivity.
Qed.

End Passes.



(** * Further properties of the three scripts *)

(** ** refactor_phase5.py: reading, locating, applying *)

Section Phase5More.
Import Text Phase5.

Lemma split_lines_nonempty s : split_lines s <> [].
Proof.
  destruct s as [|c s]; simpl; [discriminate|].
  destruct (Ascii.eqb c newline); [discriminate|].
  destruct (split_lines s); discriminate.
Qed.

Lemma join_lines_cons_char c h t :
  join_lines (String c h :: t) = String c (join_lines (h :: t)).
Proof. destruct t; reflexivity. Qed.

Lemma join_split_lines content : join_lines (split_lines content) = content.
Proof.
  induction content as [|c s IH]; [reflexivity|].
  simpl. destruct (Ascii.eqb c newline) eqn:Hc.
  - apply Ascii.eqb_eq in Hc. subst c.
    destruct (split_lines s) as [|h t] eqn:Hs.
    + exfalso. exact (split_lines_nonempty s Hs).
    + change (join_lines (EmptyString :: h :: t))
        with (String newline (join_lines (h :: t))).
      rewrite IH. reflexivity.
  - destruct (split_lines s) as [|h t] eqn:Hs.
    + exfalso. exact (split_lines_nonempty s Hs).
    + rewrite join_lines_cons_char, IH. reflexivity.
Qed.

Lemma split_lines_one l : count newline l = 0 -> split_lines l = [l].
Proof.
  induction l as [|c l IH]; [reflexivity|]. simpl.
  destruct (Ascii.eqb c newline); [discriminate|].
  intros H. rewrite (IH H). reflexivity.
Qed.

Lemma split_lines_cons l rest :
  count newline l = 0 ->
  split_lines (l +:+ String newline rest) = l :: split_lines rest.
Proof.
  induction l as [|c l IH]; intros H.
  - reflexivity.
  - simpl in H |- *. destruct (Ascii.eqb c newline); [discriminate|].
    rewrite (IH H). reflexivity.
Qed.

(** X1.  Splitting a content at its newlines and joining the lines with
    newlines gives the content back; joining lines that hold no newline and
    splitting the result gives the lines back. *)
Theorem X1_split_join_round_trip :
  (forall content, join_lines (split_lines content) = content)
  /\ (forall lines,
         lines <> [] ->
         Forall (fun l => count newline l = 0) lines ->
         split_lines (join_lines lines) = lines).
Proof.
  split; [exact join_split_lines|].
  induction lines as [|l lines IH]; intros Hne Hall; [congruence|].
  inversion Hall as [|? ? Hl Hrest]; subst.
  destruct lines as [|l' lines].
  - simpl. apply split_lines_one. exact Hl.
  - change (join_lines (l :: l' :: lines))
      with (l +:+ String newline (join_lines (l' :: lines))).
    rewrite (split_lines_cons l _ Hl), IH; [reflexivity | discriminate | exact Hrest].
Qed.

(** The theorem on two lines. *)
Lemma X1_split_join_round_trip_witness :
  split_lines (join_lines ["const a = 1;"; "const b = 2;"])
  = ["const a = 1;"; "const b = 2;"].
Proof.
  destruct X1_split_join_round_trip as [_ H]. apply H.
  - discriminate.
  - repeat constructor.
Defined.

Lemma keep_nil_ranges (ls : list string) : forall i, keep [] i ls = ls.
Proof.
  induction ls as [|l ls IH]; intros i; [reflexivity|].
  simpl. rewrite IH. reflexivity.
Qed.

Lemma omap_all_None {A B} (f : A -> option B) (l : list A) :
  Forall (fun x => f x = None) l -> omap f l = [].
Proof.
  induction 1 as [|x l Hx _ IH]; [reflexivity|].
  simpl. rewrite Hx. exact IH.
Qed.

(** X2.  When none of the thirteen scans locates a region, the script
    writes the file back with the very content it read. *)
Theorem X2_no_region_no_change :
  forall content,
    Forall (fun scan => scan (split_lines content) = None) scans ->
    run (Some content) = Written content.
Proof.
  intros content H. unfold run, remove_ranges.
  rewrite collect_omap, (omap_all_None _ _ H), apply_ranges_keep, keep_nil_ranges.
  rewrite join_split_lines. reflexivity.
Qed.

(** The theorem on a file without any marker. *)
Lemma X2_no_region_no_change_witness :
  run (Some "const x = 1;") = Written "const x = 1;".
Proof.
  apply X2_no_region_no_change.
  repeat (constructor; [reflexivity|]). constructor.
Defined.

Lemma locate_bounds r lines s e :
  (forall j, j < length lines -> j < stop r lines j <= length lines) ->
  locate r lines = Some (s, e) -> s < e <= length lines.
Proof.
  intros Hstop H. apply locate_Some in H.
  destruct H as (_ & j & -> & Hj & _). specialize (Hstop j ltac:(lia)). lia.
Qed.

Lemma through_bounds lines j :
  j < length lines -> j < through lines j <= length lines.
Proof. unfold through. lia. Qed.

Lemma debounced_stop_bounds lines j :
  j < length lines -> j < stop debounced_save lines j <= length lines.
Proof.
  intros Hj. simpl.
  destruct ((j + 1 <? length lines)
            && String.eqb (strip (line lines (j + 1))) EmptyString) eqn:Hc.
  - apply andb_prop in Hc as [Hlt _]. nat_cmp. lia.
  - lia.
Qed.

Lemma handleFieldBlur_bounds lines s e :
  locate_handleFieldBlur lines = Some (s, e) -> s < e <= length lines.
Proof.
  unfold locate_handleFieldBlur.
  destruct (first_from _ 0 (length lines)) as [start|] eqn:Hs; [|discriminate].
  pose proof Hs as Hs'. apply first_from_starts_at in Hs'.
  rewrite (brace_scan_first_from lines start (skipn start lines) start 0%Z);
    [| lia | reflexivity | rewrite counter_after_start; lia].
  destruct (first_from _ start (length lines)) as [j|] eqn:Hj; [|discriminate].
  intros [= <- <-]. apply first_from_Some in Hj.
  destruct Hj as (Hj & Ht & _). apply andb_prop in Ht as [_ Hlt]. nat_cmp. lia.
Qed.

Lemma scans_bounds lines :
  Forall (fun scan => forall r, scan lines = Some r -> fst r < snd r <= length lines)
         scans.
Proof.
  unfold scans.
  repeat (constructor;
          [intros [s e] H; simpl;
           first [ exact (handleFieldBlur_bounds lines s e H)
                 | refine (locate_bounds _ lines s e _ H);
                   first [ exact (debounced_stop_bounds lines)
                         | exact (through_bounds lines) ] ] |]).
  constructor.
Qed.

(** X3.  Every interval the scans collect is non-empty and lies within the
    file: its start is below its end and its end is at most the number of
    lines. *)
Theorem X3_collected_ranges_within_file :
  forall lines r,
    In r (remove_ranges lines) -> fst r < snd r <= length lines.
Proof.
  intros lines r Hin. unfold remove_ranges in Hin. rewrite collect_omap in Hin.
  apply list_elem_of_In, list_elem_of_omap in Hin.
  destruct Hin as (scan & Hscan & Hr).
  pose proof (scans_bounds lines) as Hall.
  rewrite Forall_forall in Hall. exact (Hall scan Hscan r Hr).
Qed.

(** The theorem at the handler sample, whose only interval is [(1, 9)]. *)
Lemma X3_collected_ranges_within_file_witness :
  1 < 9 <= length nested_handler.
Proof.
  apply (X3_collected_ranges_within_file nested_handler (1, 9)).
  left. reflexivity.
Defined.

Lemma covered_Permutation rs rs' k :
  Permutation rs rs' -> covered rs k = covered rs' k.
Proof.
  unfold covered.
  induction 1 as [|r l l' _ IH|a b l|l1 l2 l3 _ IH1 _ IH2]; simpl.
  - reflexivity.
  - rewrite IH. reflexivity.
  - destruct ((fst a <=? k) && (k <? snd a)), ((fst b <=? k) && (k <? snd b));
      reflexivity.
  - congruence.
Qed.

(** X4.  The lines kept depend only on which indices the intervals cover:
    two interval lists with the same coverage give the same output, so the
    order in which the regions were found does not matter, and the loop run
    on the list as collected, without sorting it, gives what it gives on
    the sorted list. *)
Theorem X4_output_depends_on_coverage_only :
  (forall lines rs rs',
      (forall k, covered rs k = covered rs' k) ->
      apply_ranges lines rs = apply_ranges lines rs')
  /\ (forall lines rs rs',
         Permutation rs rs' -> apply_ranges lines rs = apply_ranges lines rs')
  /\ (forall lines rs,
         apply_loop (S (length lines)) lines rs 0 [] = apply_ranges lines rs).
Proof.
  assert (H1 : forall lines rs rs',
             (forall k, covered rs k = covered rs' k) ->
             apply_ranges lines rs = apply_ranges lines rs').
  { intros lines rs rs' H. rewrite !apply_ranges_keep. f_equal.
    apply keep_ext. exact H. }
  split; [exact H1|]. split.
  - intros lines rs rs' HP. apply H1. intros k.
    apply covered_Permutation. exact HP.
  - intros lines rs. rewrite apply_loop_keep by lia.
    rewrite apply_ranges_keep. reflexivity.
Qed.

(** The theorem on two orders of the same intervals. *)
Lemma X4_output_depends_on_coverage_only_witness :
  apply_ranges ["a"; "b"; "c"; "d"] [(2, 3); (0, 1)]
  = apply_ranges ["a"; "b"; "c"; "d"] [(0, 1); (2, 3)].
Proof.
  destruct X4_output_depends_on_coverage_only as (_ & H & _).
  apply H. apply perm_swap.
Defined.

Lemma keep_sublist rs (ls : list string) : forall i, sublist (keep rs i ls) ls.
Proof.
  induction ls as [|l ls IH]; intros i; simpl; [constructor|].
  destruct (covered rs i).
  - apply sublist_cons. apply IH.
  - apply sublist_skip. apply IH.
Qed.

Lemma keep_length rs (ls : list string) : forall i,
  length (keep rs i ls)
  + length (List.filter (covered rs) (seq i (length ls)))
  = length ls.
Proof.
  induction ls as [|l ls IH]; intros i; simpl; [reflexivity|].
  specialize (IH (S i)). destruct (covered rs i); simpl; lia.
Qed.

(** X5.  The output of the range application is the input with lines left
    out, nothing added and nothing moved, and the number of lines left out
    is the number of covered indices. *)
Theorem X5_output_is_sublist :
  forall lines rs,
    exists new_lines,
      apply_ranges lines rs = Some new_lines
      /\ sublist new_lines lines
      /\ length new_lines
         + length (List.filter (covered rs) (seq 0 (length lines)))
         = length lines.
Proof.
  intros lines rs. exists (keep rs 0 lines).
  split; [apply apply_ranges_keep|].
  split; [apply keep_sublist | apply keep_length].
Qed.

Lemma range_leb_total a b : range_leb a b = false -> range_leb b a = true.
Proof.
  unfold range_leb. intros H.
  destruct (fst a <? fst b) eqn:H1; [discriminate|]. simpl in H.
  destruct (fst b <? fst a) eqn:H2; [reflexivity|]. simpl.
  destruct (fst a =? fst b) eqn:H3; simpl in H.
  - nat_cmp. assert (H4 : (fst b =? fst a) = true) by (apply Nat.eqb_eq; lia).
    assert (H5 : (snd b <=? snd a) = true) by (apply Nat.leb_le; lia).
    rewrite H4, H5. reflexivity.
  - nat_cmp. lia.
Qed.

Lemma insert_range_Permutation a l : Permutation (a :: l) (insert_range a l).
Proof.
  induction l as [|b l IH]; simpl; [reflexivity|].
  destruct (range_leb a b); [reflexivity|].
  rewrite perm_swap. apply perm_skip. exact IH.
Qed.

Lemma insert_range_Sorted a l :
  Sorted (fun x y => range_leb x y = true) l ->
  Sorted (fun x y => range_leb x y = true) (insert_range a l).
Proof.
  induction l as [|b l IH]; intros Hs; simpl.
  - constructor; constructor.
  - destruct (range_leb a b) eqn:E.
    + constructor; [exact Hs|]. constructor. exact E.
    + inversion Hs as [|? ? Hs' Hd]; subst.
      constructor; [apply IH; exact Hs'|].
      destruct l as [|c l]; simpl.
      * constructor. apply range_leb_total. exact E.
      * destruct (range_leb a c).
        -- constructor. apply range_leb_total. exact E.
        -- constructor. inversion Hd; subst. assumption.
Qed.

(** X6.  Sorting the collected intervals keeps every interval, with its
    multiplicity, and puts them in the lexicographic order of the pairs. *)
Theorem X6_sort_ranges_sorted_permutation :
  forall l,
    Permutation l (sort_ranges l)
    /\ Sorted (fun x y => range_leb x y = true) (sort_ranges l).
Proof.
  induction l as [|a l [IHp IHs]]; simpl.
  - split; constructor.
  - split.
    + rewrite <- insert_range_Permutation. apply perm_skip. exact IHp.
    + apply insert_range_Sorted. exact IHs.
Qed.

(** X7.  The region of the debounced save starts at the first line that
    holds its marker and ends with the first later line that contains the
    closing text while [debouncedSave] occurs in the lines before it: at no
    line in between do both hold.  The line after that one is taken too
    exactly when it exists and is blank. *)
Theorem X7_debounced_save_takes_blank_line :
  forall lines s e,
    locate debounced_save lines = Some (s, e) ->
    starts_at (is_start debounced_save) lines s
    /\ exists j,
      s < j < length lines
      /\ contains "  );" (line lines j) = true
      /\ contains "debouncedSave" (join (slice lines s j)) = true
      /\ (forall k, s < k < j ->
            contains "  );" (line lines k)
            && contains "debouncedSave" (join (slice lines s k)) = false)
      /\ ((j + 1 < length lines
           /\ strip (line lines (j + 1)) = EmptyString /\ e = j + 2)
          \/ ((length lines <= j + 1
               \/ strip (line lines (j + 1)) <> EmptyString) /\ e = j + 1)).
Proof.
  intros lines s e H. apply locate_Some in H.
  destruct H as (Hs & j & -> & Hj & Ht & Hmin). split; [exact Hs|]. exists j.
  simpl in Ht. unfold guarded_end in Ht. apply andb_prop in Ht as [He Hg].
  split; [exact Hj|]. split; [exact He|]. split; [exact Hg|].
  split; [exact Hmin|]. simpl.
  destruct (j + 1 <? length lines) eqn:Hlt; simpl.
  - destruct (String.eqb (strip (line lines (j + 1))) EmptyString) eqn:Hb.
    + left. apply String.eqb_eq in Hb. nat_cmp. auto.
    + right. apply String.eqb_neq in Hb. auto.
  - right. nat_cmp. split; [left; lia | reflexivity].
Qed.

(** The theorem on a block followed by a blank line. *)
Lemma X7_debounced_save_takes_blank_line_witness :
  starts_at (is_start debounced_save) debounced_block 0
  /\ exists j,
    0 < j < length debounced_block
    /\ contains "  );" (line debounced_block j) = true
    /\ contains "debouncedSave" (join (slice debounced_block 0 j)) = true
    /\ (forall k, 0 < k < j ->
          contains "  );" (line debounced_block k)
          && contains "debouncedSave" (join (slice debounced_block 0 k)) = false)
    /\ ((j + 1 < length debounced_block
         /\ strip (line debounced_block (j + 1)) = EmptyString /\ 5 = j + 2)
        \/ ((length debounced_block <= j + 1
             \/ strip (line debounced_block (j + 1)) <> EmptyString)
            /\ 5 = j + 1)).
Proof.
  apply (X7_debounced_save_takes_blank_line debounced_block 0 5).
  reflexivity.
Defined.

End Phase5More.

(** ** migrate_app_js_to_ts.py: renaming *)

Section MigrateMore.
Import Text Re FS Migrate.

Lemma substring_all s : substring 0 (String.length s) s = s.
Proof. induction s as [|c s IH]; simpl; [reflexivity | rewrite IH; reflexivity]. Qed.

Lemma substring_prefix a b : substring 0 (String.length a) (a +:+ b) = a.
Proof.
  induction a as [|c a IH]; simpl.
  - destruct b; reflexivity.
  - rewrite IH. reflexivity.
Qed.

Lemma substring_suffix a b :
  substring (String.length a) (String.length b) (a +:+ b) = b.
Proof.
  induction a as [|c a IH]; simpl; [apply substring_all | exact IH].
Qed.

Lemma rfind_dot_js stem :
  rfind "."%char (stem +:+ ".js") = Some (String.length stem).
Proof.
  induction stem as [|c stem IH]; [reflexivity|].
  change (String c stem +:+ ".js") with (String c (stem +:+ ".js")).
  cbn [rfind]. rewrite IH. reflexivity.
Qed.

Lemma suffix_js stem : stem <> EmptyString -> suffix (stem +:+ ".js") = ".js".
Proof.
  intros Hne. unfold suffix. rewrite rfind_dot_js, length_append.
  assert (Hlen : 0 < String.length stem) by (destruct stem; simpl; [congruence | lia]).
  assert (H1 : (0 <? String.length stem) = true) by (apply Nat.ltb_lt; lia).
  assert (H2 : (String.length stem <? String.length stem + String.length ".js" - 1)
               = true) by (apply Nat.ltb_lt; simpl; lia).
  rewrite H1, H2. cbn [andb].
  replace (String.length stem + String.length ".js" - String.length stem)
    with (String.length ".js") by lia.
  apply substring_suffix.
Qed.

Lemma name_last dir (n : string) : name (dir ++ [n]) = n.
Proof. unfold name. apply last_last. Qed.

Lemma with_suffix_js dir stem new_suffix :
  stem <> EmptyString ->
  with_suffix (dir ++ [stem +:+ ".js"]) new_suffix
  = Some (dir ++ [stem +:+ new_suffix]).
Proof.
  intros Hne. unfold with_suffix. rewrite name_last, removelast_last.
  destruct stem as [|c stem]; [congruence|].
  change (String c stem +:+ ".js") with (String c (stem +:+ ".js")). cbv iota.
  change (String c (stem +:+ ".js")) with (String c stem +:+ ".js").
  rewrite (suffix_js (String c stem) Hne), length_append.
  replace (String.length (String c stem) + String.length ".js" - String.length ".js")
    with (String.length (String c stem)) by lia.
  rewrite substring_prefix. reflexivity.
Qed.

(** X10.  For a file whose name is a non-empty stem followed by [.js], the
    target path is the same folder with the name's [.js] replaced by the
    new suffix, whatever dots the stem holds; a file named just [.js] gets
    the new suffix appended instead; and the target of a conversion is
    never the source path itself. *)
Theorem X10_with_suffix_replaces_js :
  (forall dir stem new_suffix,
      stem <> EmptyString ->
      with_suffix (dir ++ [stem +:+ ".js"]) new_suffix
      = Some (dir ++ [stem +:+ new_suffix]))
  /\ (forall dir new_suffix,
         with_suffix (dir ++ [".js"]) new_suffix
         = Some (dir ++ [".js" +:+ new_suffix]))
  /\ (forall dir stem text,
         stem <> EmptyString ->
         with_suffix (dir ++ [stem +:+ ".js"])
                     (target_extension (dir ++ [stem +:+ ".js"]) text)
         <> Some (dir ++ [stem +:+ ".js"])).
Proof.
  split; [exact with_suffix_js|]. split.
  - intros dir new_suffix. unfold with_suffix.
    rewrite name_last, removelast_last. reflexivity.
  - intros dir stem text Hne. rewrite (with_suffix_js dir stem _ Hne).
    intros [= E]. apply app_inv_head in E. injection E as E.
    apply append_inv_head in E. unfold target_extension in E.
    destruct (should_force_tsx _); [discriminate|].
    destruct (contains_jsx _); discriminate.
Qed.

(** The theorem at [utils/date.format.js]. *)
Lemma X10_with_suffix_replaces_js_witness :
  with_suffix (["utils"] ++ ["date.format" +:+ ".js"]) ".ts"
  = Some (["utils"] ++ ["date.format" +:+ ".ts"]).
Proof.
  destruct X10_with_suffix_replaces_js as (H & _). apply H. discriminate.
Defined.

Lemma exists_false (m : fs) p : m !! p = None -> exists_ m p = false.
Proof.
  intros H. unfold exists_. apply bool_decide_eq_false. rewrite H.
  intros [x Hx]. discriminate.
Qed.

(** X9.  A conversion that goes through is a move: the source path no
    longer exists, the target path holds the content with the banner
    ensured, and every other file is as it was. *)
Theorem X9_conversion_is_a_move :
  forall (m : fs) p text new_path,
    m !! p = Some text ->
    with_suffix p (target_extension p text) = Some new_path ->
    m !! new_path = None ->
    exists m',
      convert_file m p false = (m', Renamed p new_path)
      /\ m' !! p = None
      /\ m' !! new_path = Some (ensure_banner text)
      /\ forall q, q <> p -> q <> new_path -> m' !! q = m !! q.
Proof.
  intros m p text new_path Hp Hnew Hfree.
  assert (Hne : new_path <> p) by (intros ->; congruence).
  eexists. split.
  - unfold convert_file. rewrite Hp, Hnew, (exists_false m new_path Hfree).
    reflexivity.
  - split; [apply lookup_delete_eq|]. split.
    + rewrite lookup_delete_ne by congruence. apply lookup_insert_eq.
    + intros q Hq1 Hq2. rewrite lookup_delete_ne by congruence.
      apply lookup_insert_ne. congruence.
Qed.

(** The theorem on a folder with one file. *)
Lemma X9_conversion_is_a_move_witness :
  exists m',
    convert_file {[ ["utils"; "a.js"] := "export {};" ]} ["utils"; "a.js"] false
    = (m', Renamed ["utils"; "a.js"] ["utils"; "a.ts"])
    /\ m' !! ["utils"; "a.js"] = None
    /\ m' !! ["utils"; "a.ts"] = Some (ensure_banner "export {};")
    /\ forall q, q <> ["utils"; "a.js"] -> q <> ["utils"; "a.ts"] ->
         m' !! q = ({[ ["utils"; "a.js"] := "export {};" ]} : fs) !! q.
Proof.
  apply (X9_conversion_is_a_move _ ["utils"; "a.js"] "export {};"
           ["utils"; "a.ts"]); reflexivity.
Defined.

Lemma convert_file_dry_run (m : fs) p : fst (convert_file m p true) = m.
Proof.
  unfold convert_file. destruct (m !! p); [|reflexivity].
  destruct (with_suffix _ _); [|reflexivity].
  destruct (exists_ m _); reflexivity.
Qed.

(** X8.  In dry-run mode nothing is written or deleted: [convert_file]
    returns the file system it was given, and so does a whole run of the
    main loop, whatever the files are. *)
Theorem X8_dry_run_changes_nothing :
  (forall (m : fs) p, fst (convert_file m p true) = m)
  /\ (forall files (m m' : fs) t t',
         main_loop true files m t = Some (m', t') -> m' = m).
Proof.
  split; [exact convert_file_dry_run|].
  induction files as [|f files IH]; intros m m' t t'; simpl.
  - intros [= <- _]. reflexivity.
  - destruct (negb (endswith (name f) ".js")); [apply IH|].
    pose proof (convert_file_dry_run m f) as Hdry.
    destruct (convert_file m f true) as [m1 [| |old new]]; simpl in Hdry; subst m1.
    + discriminate.
    + apply IH.
    + apply IH.
Qed.

(** The theorem on a one-file dry run. *)
Lemma X8_dry_run_changes_nothing_witness :
  match main_loop true [["utils"; "a.js"]]
                  {[ ["utils"; "a.js"] := "export {};" ]} (Tally 0 0) with
  | Some (m', _) => m' = {[ ["utils"; "a.js"] := "export {};" ]}
  | None => False
  end.
Proof.
  destruct X8_dry_run_changes_nothing as [_ H].
  destruct (main_loop true [["utils"; "a.js"]]
              {[ ["utils"; "a.js"] := "export {};" ]} (Tally 0 0))
    as [[m' t']|] eqn:E.
  - exact (H _ _ _ _ _ E).
  - vm_compute in E. discriminate E.
Defined.

(** X11.  When the main loop finishes, every listed file whose name ends in
    [.js] was counted once, as converted or as skipped, and no other file
    was counted. *)
Theorem X11_every_js_file_is_counted :
  forall dry_run files (m m' : fs) t t',
    main_loop dry_run files m t = Some (m', t') ->
    conversions t' + skipped t'
    = conversions t + skipped t
      + length (List.filter (fun f => endswith (name f) ".js") files).
Proof.
  intros dry_run. induction files as [|f files IH]; intros m m' t t'; simpl.
  - intros [= _ <-]. lia.
  - destruct (endswith (name f) ".js"); simpl.
    + destruct (convert_file m f dry_run) as [m1 [| |old new]].
      * discriminate.
      * intros H. apply IH in H. simpl in H. lia.
      * intros H. apply IH in H. simpl in H. lia.
    + intros H. apply IH in H. lia.
Qed.

(** The theorem on a collision, a conversion and a backup file. *)
Lemma X11_every_js_file_is_counted_witness :
  match main_loop false
          [["utils"; "a.js"]; ["utils"; "b.js"]; ["utils"; "c.js.backup_old"]]
          {[ ["utils"; "a.js"] := "export {};"; ["utils"; "a.ts"] := "export {};";
             ["utils"; "b.js"] := "export {};";
             ["utils"; "c.js.backup_old"] := "export {};" ]}
          (Tally 0 0) with
  | Some (_, t') => conversions t' + skipped t' = 2
  | None => False
  end.
Proof.
  destruct (main_loop false _ _ (Tally 0 0)) as [[m' t']|] eqn:E.
  - exact (X11_every_js_file_is_counted false _ _ _ _ _ E).
  - vm_compute in E. discriminate E.
Defined.

Lemma ensure_banner_result text :
  has_banner (ensure_banner text) = true
  /\ (ensure_banner text = text
      \/ ensure_banner text = TS_NOCHECK_BANNER +:+ text).
Proof.
  unfold ensure_banner. fold (has_banner text).
  destruct (has_banner text) eqn:H.
  - split; [exact H | left; reflexivity].
  - split; [reflexivity | right; reflexivity].
Qed.

(** X12.  Whenever [convert_file] reports a rename outside dry-run mode,
    the file it wrote at the new path starts, after leading white space,
    with the marker, and consists of the source content, with the banner in
    front of it or not: nothing of the source is lost. *)
Theorem X12_converted_file_carries_banner :
  forall (m m' : fs) p old new,
    convert_file m p false = (m', Renamed old new) ->
    exists text content,
      m !! p = Some text
      /\ m' !! new = Some content
      /\ has_banner content = true
      /\ (content = text \/ content = TS_NOCHECK_BANNER +:+ text).
Proof.
  intros m m' p old new. unfold convert_file.
  destruct (m !! p) as [text|] eqn:Hp; [|discriminate].
  destruct (with_suffix p (target_extension p text)) as [new_path|] eqn:Hnew;
    [|discriminate].
  destruct (exists_ m new_path) eqn:Hex; [discriminate|].
  intros [= <- _ <-].
  assert (Hne : new_path <> p).
  { intros ->. unfold exists_ in Hex. apply bool_decide_eq_false in Hex.
    apply Hex. rewrite Hp. eauto. }
  exists text, (ensure_banner text). split; [reflexivity|]. split.
  - rewrite lookup_delete_ne by congruence. apply lookup_insert_eq.
  - apply ensure_banner_result.
Qed.

(** The theorem on a folder with one file. *)
Lemma X12_converted_file_carries_banner_witness :
  exists text content,
    ({[ ["utils"; "a.js"] := "export {};" ]} : fs) !! ["utils"; "a.js"] = Some text
    /\ delete ["utils"; "a.js"]
         (<[ ["utils"; "a.ts"] := ensure_banner "export {};" ]>
            ({[ ["utils"; "a.js"] := "export {};" ]} : fs))
       !! ["utils"; "a.ts"] = Some content
    /\ has_banner content = true
    /\ (content = text \/ content = TS_NOCHECK_BANNER +:+ text).
Proof.
  apply (X12_converted_file_carries_banner _ _ ["utils"; "a.js"]
           ["utils"; "a.js"] ["utils"; "a.ts"]).
  reflexivity.
Defined.

Lemma jsx_gives_tsx p text :
  has_jsx_signature text -> target_extension p text = ".tsx".
Proof.
  intros H. apply contains_jsx_signature in H. unfold target_extension.
  rewrite H. destruct (should_force_tsx p); reflexivity.
Qed.

Lemma occurs_context r pre text post :
  occurs r text -> occurs r (pre +:+ text +:+ post).
Proof.
  intros (a & w & b & -> & Hl). exists (pre +:+ a), w, (b +:+ post).
  rewrite !append_assoc. auto.
Qed.

(** X13.  Whatever the folder, a content that holds a closing tag
    [</Name>], a self-closing tag [<Name/>], or a self-closing tag with
    attributes [<Name attrs/>] (a name that starts with a letter, a white
    space, and no closing angle bracket before the final [/>]) is given the
    extension [.tsx]. *)
Theorem X13_tags_give_tsx :
  forall p pre c name post,
    letter c = true -> all_in alnum name = true ->
    target_extension p (pre +:+ ("</" +:+ String c name +:+ ">") +:+ post) = ".tsx"
    /\ target_extension p (pre +:+ ("<" +:+ String c name +:+ "/>") +:+ post) = ".tsx"
    /\ forall d attrs,
         ws d = true -> all_in not_gt attrs = true ->
         target_extension p
           (pre +:+ ("<" +:+ String c name +:+ String d attrs +:+ "/>") +:+ post)
         = ".tsx".
Proof.
  intros p pre c name post Hc Hname. split; [|split].
  - apply jsx_gives_tsx. left.
    exists pre, ("</" +:+ String c name +:+ ">"), post. split; [reflexivity|].
    exists "</", (String c name +:+ ">"). split; [reflexivity|].
    split; [reflexivity|].
    exists EmptyString, (String c name +:+ ">").
    split; [reflexivity|]. split; [reflexivity|].
    exists (String c EmptyString), (name +:+ ">").
    split; [reflexivity|]. split; [exists c; auto|].
    exists name, ">". split; [reflexivity|]. split; [exact Hname|].
    right. reflexivity.
  - apply jsx_gives_tsx. right. left.
    exists pre, ("<" +:+ String c name +:+ "/>"), post. split; [reflexivity|].
    exists "<", (String c name +:+ "/>"). split; [reflexivity|].
    split; [reflexivity|].
    exists EmptyString, (String c name +:+ "/>").
    split; [reflexivity|]. split; [reflexivity|].
    exists (String c EmptyString), (name +:+ "/>").
    split; [reflexivity|]. split; [exists c; auto|].
    exists name, "/>". split; [reflexivity|]. split; [exact Hname|].
    exists EmptyString, "/>". split; [reflexivity|].
    split; [left; reflexivity | reflexivity].
  - intros d attrs Hd Hattrs. apply jsx_gives_tsx. right. left.
    exists pre, ("<" +:+ String c name +:+ String d attrs +:+ "/>"), post.
    split; [reflexivity|].
    exists "<", (String c name +:+ String d attrs +:+ "/>"). split; [reflexivity|].
    split; [reflexivity|].
    exists EmptyString, (String c name +:+ String d attrs +:+ "/>").
    split; [reflexivity|]. split; [reflexivity|].
    exists (String c EmptyString), (name +:+ String d attrs +:+ "/>").
    split; [reflexivity|]. split; [exists c; auto|].
    exists name, (String d attrs +:+ "/>"). split; [reflexivity|].
    split; [exact Hname|].
    exists (String d attrs), "/>". split; [reflexivity|].
    split; [|reflexivity]. right.
    exists (String d EmptyString), attrs. split; [reflexivity|].
    split; [exists d; auto | exact Hattrs].
Qed.

(** The theorem at the tag [Text] with a [style] attribute. *)
Lemma X13_tags_give_tsx_witness :
  target_extension ["utils"; "label.js"]
    ("return " +:+ ("<" +:+ String "T" "ext" +:+ String " " "style={x} " +:+ "/>")
       +:+ ";")
  = ".tsx".
Proof.
  destruct (X13_tags_give_tsx ["utils"; "label.js"] "return " "T"%char "ext" ";"
              eq_refl eq_refl) as (_ & _ & H).
  apply H; reflexivity.
Defined.

(** X14.  Text added before or after a content never takes the [.tsx]
    extension away from it. *)
Theorem X14_tsx_survives_added_text :
  forall p pre text post,
    target_extension p text = ".tsx" ->
    target_extension p (pre +:+ text +:+ post) = ".tsx".
Proof.
  intros p pre text post. unfold target_extension.
  destruct (should_force_tsx p); [reflexivity|].
  destruct (contains_jsx text) eqn:H; [|discriminate]. intros _.
  apply contains_jsx_signature in H.
  assert (H' : has_jsx_signature (pre +:+ text +:+ post)).
  { destruct H as [H|[H|H]]; [left | right; left | right; right];
      apply occurs_context; exact H. }
  apply contains_jsx_signature in H'. rewrite H'. reflexivity.
Qed.

(** The theorem around a closing tag. *)
Lemma X14_tsx_survives_added_text_witness :
  target_extension ["utils"; "a.js"] ("const a = 1;" +:+ "</View>" +:+ ";")
  = ".tsx".
Proof.
  apply X14_tsx_survives_added_text. reflexivity.
Defined.

End MigrateMore.

(** ** remove_js_import_extensions.py: sizes, repeated runs, what is touched *)

Section RemoveJsMore.
Import Text Re FS RemoveJs.

(** A pass shortens the text by three characters for each substitution. *)
Lemma subn_loop_length gs : reference_pattern gs -> forall fuel s,
  String.length (fst (subn_loop fuel gs strip_suffix s))
  + 3 * snd (subn_loop fuel gs strip_suffix s)
  = String.length s.
Proof.
  intros (h & t & -> & _ & Ht). induction fuel as [|fuel IH]; intros s; simpl.
  - lia.
  - destruct (match_at _ s) as [[groups rest]|] eqn:Hm.
    + destruct (match_at_reference h t s groups rest Ht Hm)
        as (g1 & g2 & q & b & -> & -> & _).
      specialize (IH rest).
      destruct (subn_loop fuel _ strip_suffix rest) as [out n]. simpl in IH |- *.
      change (strip_suffix [g1; g2; ".js"; String q b])
        with (g1 +:+ g2 +:+ String q b).
      rewrite !length_append. simpl. rewrite !length_append. simpl. lia.
    + destruct s as [|c s]; [reflexivity|]. specialize (IH s).
      destruct (subn_loop fuel _ strip_suffix s) as [out n]. simpl in IH |- *.
      lia.
Qed.

Lemma rewrite_step_length gs text updated :
  reference_pattern gs ->
  exists k,
    String.length (fst (rewrite_step (text, updated) gs)) + 3 * k
    = String.length text
    /\ (snd (rewrite_step (text, updated) gs) = true
        <-> updated = true \/ 0 < k).
Proof.
  intros Hgs. unfold rewrite_step, subn.
  pose proof (subn_loop_length gs Hgs (S (String.length text)) text) as H.
  destruct (subn_loop _ gs strip_suffix text) as [new_text count].
  simpl in H. destruct (0 <? count) eqn:Hc; nat_cmp.
  - exists count. simpl. split; [exact H|]. split; auto.
  - exists 0. simpl. split; [lia|]. split; [auto|]. intros [Hu|Hk]; [exact Hu | lia].
Qed.

Lemma rewrite_with_length ps : (forall gs, In gs ps -> reference_pattern gs) ->
  forall text updated,
  exists k,
    String.length (fst (fold_left rewrite_step ps (text, updated))) + 3 * k
    = String.length text
    /\ (snd (fold_left rewrite_step ps (text, updated)) = true
        <-> updated = true \/ 0 < k).
Proof.
  induction ps as [|gs ps IH]; intros Hps text updated; cbn [fold_left].
  - exists 0. simpl. split; [lia|]. split; [auto|]. intros [H|H]; [exact H | lia].
  - destruct (rewrite_step_length gs text updated (Hps gs (or_introl eq_refl)))
      as (k1 & Hlen1 & Hu1).
    destruct (rewrite_step (text, updated) gs) as [t1 u1]. simpl in Hlen1, Hu1.
    destruct (IH (fun g Hg => Hps g (or_intror Hg)) t1 u1) as (k2 & Hlen2 & Hu2).
    exists (k1 + k2). split; [lia|]. rewrite Hu2, Hu1. split.
    + intros [[H|H]|H]; [left; exact H | right; lia | right; lia].
    + intros [H|H]; [left; left; exact H|].
      destruct k1; [right; lia | left; right; lia].
Qed.

Lemma process_text_length text :
  exists k,
    String.length (fst (process_text text)) + 3 * k = String.length text
    /\ (snd (process_text text) = true <-> 0 < k).
Proof.
  unfold process_text.
  destruct (negb (contains js_squote text) && negb (contains js_dquote text)).
  - exists 0. simpl. split; [lia|]. split; [discriminate | lia].
  - destruct (rewrite_with_length patterns patterns_reference text false)
      as (k & Hlen & Hu).
    exists k. split; [exact Hlen|]. rewrite Hu. split.
    + intros [H|H]; [discriminate | exact H].
    + auto.
Qed.

(** In a matched text a quoted suffix occurs. *)
Lemma no_match_without_quoted_suffix gs text :
  reference_pattern gs ->
  contains js_squote text = false -> contains js_dquote text = false ->
  no_match gs text.
Proof.
  intros (h & t & -> & _ & Ht) Hs Hd pre post E.
  destruct (match_at _ post) as [[groups rest]|] eqn:Hm; [|reflexivity].
  exfalso.
  destruct (match_at_reference h t post groups rest Ht Hm)
    as (g1 & g2 & q & b & _ & -> & _ & _ & _ & Hq & _).
  assert (Hcases : q = "'"%char \/ q = dquote).
  { unfold quote, is_char in Hq. apply orb_prop in Hq as [Hq|Hq];
      apply Ascii.eqb_eq in Hq; auto. }
  assert (Etext : text = (pre +:+ g1 +:+ g2) +:+ (".js" +:+ String q EmptyString)
                         +:+ (b +:+ rest)).
  { rewrite E, !append_assoc. reflexivity. }
  destruct Hcases as [-> | ->].
  - rewrite Etext in Hs. change (".js" +:+ "'") with js_squote in Hs.
    rewrite contains_middle in Hs. discriminate.
  - rewrite Etext in Hd. change (".js" +:+ String dquote EmptyString) with js_dquote in Hd.
    rewrite contains_middle in Hd. discriminate.
Qed.

(** The test made before the loop only spares work. *)
Lemma process_text_passes text : process_text text = rewrite_with patterns text.
Proof.
  unfold process_text.
  destruct (contains js_squote text) eqn:Hs; [reflexivity|].
  destruct (contains js_dquote text) eqn:Hd; [reflexivity|].
  simpl. symmetry. apply rewrite_with_no_match. intros gs Hin.
  apply no_match_without_quoted_suffix;
    [exact (patterns_reference gs Hin) | exact Hs | exact Hd].
Qed.

Lemma subn_length gs s : reference_pattern gs ->
  String.length (fst (subn gs strip_suffix s)) + 3 * snd (subn gs strip_suffix s)
  = String.length s.
Proof. intros Hgs. apply subn_loop_length. exact Hgs. Qed.

(** The loop shortens the text by three characters for each substitution
    counted, and sets [updated] exactly when one was counted. *)
Lemma rewrite_with_counts ps : (forall gs, In gs ps -> reference_pattern gs) ->
  forall text updated,
    String.length (fst (fold_left rewrite_step ps (text, updated)))
    + 3 * list_sum (counts ps text)
    = String.length text
    /\ (snd (fold_left rewrite_step ps (text, updated)) = true
        <-> updated = true \/ 0 < list_sum (counts ps text)).
Proof.
  induction ps as [|gs ps IH]; intros Hps text updated; cbn [fold_left counts].
  - simpl. split; [lia|]. split; [auto|]. intros [H|H]; [exact H | lia].
  - pose proof (subn_length gs text (Hps gs (or_introl eq_refl))) as Hl.
    unfold rewrite_step.
    destruct (subn gs strip_suffix text) as [new_text count]. simpl in Hl.
    fold rewrite_step.
    destruct (0 <? count) eqn:Hc; nat_cmp;
      match goal with
      | |- context [list_sum (count :: ?l)] =>
          change (list_sum (count :: l)) with (count + list_sum l)
      end.
    + destruct (IH (fun g Hg => Hps g (or_intror Hg)) new_text true) as [L U].
      split; [lia|]. split.
      * intros _. right. lia.
      * intros _. apply U. left. reflexivity.
    + destruct (IH (fun g Hg => Hps g (or_intror Hg)) text updated) as [L U].
      split; [lia|]. rewrite U. split.
      * intros [H|H]; [left; exact H | right; lia].
      * intros [H|H]; [left; exact H | right; lia].
Qed.

(** X16.  Each pass shortens its text by exactly three characters for each
    substitution that [subn] counts; a run of the rewriter shortens the
    text by three times the sum of the counts of its four passes; it
    reports an update exactly when some pass counted a substitution, that
    is, exactly when the text it returns differs from the text it read. *)
Theorem X16_three_characters_per_substitution :
  forall text,
    (forall gs s,
        In gs patterns ->
        String.length (fst (subn gs strip_suffix s))
        + 3 * snd (subn gs strip_suffix s)
        = String.length s)
    /\ String.length (fst (process_text text))
       + 3 * list_sum (counts patterns text)
       = String.length text
    /\ (snd (process_text text) = true
        <-> 0 < list_sum (counts patterns text))
    /\ (snd (process_text text) = true <-> fst (process_text text) <> text).
Proof.
  intros text.
  destruct (rewrite_with_counts patterns patterns_reference text false)
    as [Hlen Hu].
  fold (rewrite_with patterns text) in Hlen, Hu.
  rewrite <- process_text_passes in Hlen, Hu.
  split; [|split; [|split]].
  - intros gs s Hin. apply subn_length. apply patterns_reference. exact Hin.
  - exact Hlen.
  - rewrite Hu. split; [intros [H|H]; [discriminate | exact H] | auto].
  - split.
    + intros H E. apply Hu in H. destruct H as [H|H]; [discriminate|].
      rewrite E in Hlen. lia.
    + intros H. destruct (snd (process_text text)) eqn:Hs; [reflexivity|].
      exfalso. apply H. apply process_text_unchanged. exact Hs.
Qed.

(** Runs of the rewriter come to rest. *)
Lemma reruns_come_to_rest text :
  exists n,
    3 * n <= String.length text
    /\ process_text (rerun n text) = (rerun n text, false).
Proof.
  assert (H : forall bound text,
             String.length text <= bound ->
             exists n, 3 * n <= String.length text
                       /\ process_text (rerun n text) = (rerun n text, false)).
  { induction bound as [|bound IH]; intros text' Hb;
      destruct (process_text_length text') as (k & Hlen & Hu);
      destruct (snd (process_text text')) eqn:Hs.
    - assert (0 < k) by (apply Hu; reflexivity). lia.
    - exists 0. split; [lia|]. simpl.
      rewrite <- (process_text_unchanged text' Hs) at 2.
      rewrite <- Hs. destruct (process_text text'); reflexivity.
    - assert (0 < k) by (apply Hu; reflexivity).
      destruct (IH (fst (process_text text')) ltac:(lia)) as (n & Hn & Hfix).
      exists (S n). split; [lia|]. exact Hfix.
    - exists 0. split; [lia|]. simpl.
      rewrite <- (process_text_unchanged text' Hs) at 2.
      rewrite <- Hs. destruct (process_text text'); reflexivity. }
  apply (H (String.length text)). lia.
Qed.

(** X17.  Running the rewriter again and again comes to rest: after at
    most a third of the text's length in runs, a run makes no substitution
    and returns its input. *)
Theorem X17_reruns_reach_a_fixed_point :
  forall text,
    exists n,
      3 * n <= String.length text
      /\ process_text (rerun n text) = (rerun n text, false).
Proof. exact reruns_come_to_rest. Qed.

(** X20.  The test made before the patterns are tried never changes the
    outcome: on every text the rewriter returns what the four passes
    return. *)
Theorem X20_fast_path_is_only_a_shortcut :
  forall text, process_text text = rewrite_with patterns text.
Proof.
  intros text. unfold process_text.
  destruct (contains js_squote text) eqn:Hs; [reflexivity|].
  destruct (contains js_dquote text) eqn:Hd; [reflexivity|].
  simpl. symmetry. apply rewrite_with_no_match. intros gs Hin.
  apply no_match_without_quoted_suffix;
    [exact (patterns_reference gs Hin) | exact Hs | exact Hd].
Qed.

(** A pattern whose first group starts with a literal only matches a text
    that starts with it. *)
Lemma match_at_literal_head l r gs s groups rest :
  match_at ((Lit l @@ r) :: gs) s = Some (groups, rest) ->
  exists b, s = l +:+ b.
Proof.
  intros Hm. apply match_at_sound in Hm. destruct Hm as [-> Hl].
  inversion Hl as [|? w1 ? ws H1 _]; subst.
  destruct H1 as (u & v & Ew & Hu & _). simpl in Hu. subst u w1. simpl.
  exists (v +:+ join ws +:+ rest). rewrite !append_assoc. reflexivity.
Qed.

Lemma no_match_without_literal l r gs text :
  contains l text = false -> no_match ((Lit l @@ r) :: gs) text.
Proof.
  intros Hc pre post E.
  destruct (match_at _ post) as [[groups rest]|] eqn:Hm; [|reflexivity].
  exfalso. destruct (match_at_literal_head l r gs post groups rest Hm) as [b ->].
  rewrite E, contains_middle in Hc. discriminate.
Qed.

(** X18.  The rewriter only touches a text that holds [from], [require(]
    or [import(]: without any of the three the text is returned as it is,
    with no update reported, whatever quoted [.js] it holds (a bare
    [import './polyfill.js'] keeps its suffix). *)
Theorem X18_untouched_without_keyword :
  forall text,
    contains "from" text = false ->
    contains "require(" text = false ->
    contains "import(" text = false ->
    process_text text = (text, false).
Proof.
  intros text Hf Hr Hi. apply process_text_no_match.
  assert (Himport : no_match IMPORT_RE text)
    by (apply no_match_without_literal; exact Hf).
  intros gs [<-|[<-|[<-|[<-|[]]]]].
  - exact Himport.
  - apply no_match_IMPORT_EXPORT. exact Himport.
  - apply no_match_without_literal. exact Hr.
  - apply no_match_without_literal. exact Hi.
Qed.

(** The theorem on an import without [from]. *)
Lemma X18_untouched_without_keyword_witness :
  process_text "import './polyfill.js';" = ("import './polyfill.js';", false).
Proof.
  apply X18_untouched_without_keyword; reflexivity.
Defined.

End RemoveJsMore.

(** ** remove_js_import_extensions.py: a run over a list of files *)

Section RemoveJsMain.
Import Text Re FS RemoveJs.

Lemma process_file_step (m m1 : fs) f updated :
  process_file m f = Some (m1, updated) ->
  (forall q text, m !! q = Some text ->
              exists text1, m1 !! q = Some text1
                            /\ rtc js_removal text text1
                            /\ (q <> f -> text1 = text))
  /\ (forall q, m !! q = None -> m1 !! q = None).
Proof.
  unfold process_file. destruct (m !! f) as [text0|] eqn:Hf; [|discriminate].
  pose proof (process_text_removals text0) as Hrem.
  destruct (process_text text0) as [out u]. simpl in Hrem.
  intros [= <- <-]. split.
  - intros q text Hq. destruct u.
    + destruct (decide (q = f)) as [->|Hne].
      * rewrite lookup_insert_eq. exists out.
        assert (text = text0) by congruence. subst text0.
        split; [reflexivity|]. split; [exact Hrem|].
        intros H. exfalso. apply H. reflexivity.
      * rewrite lookup_insert_ne by congruence. exists text.
        split; [exact Hq|]. split; [apply rtc_refl | reflexivity].
    + exists text. split; [exact Hq|]. split; [apply rtc_refl | reflexivity].
  - intros q Hq. destruct u; [|exact Hq].
    assert (Hne : f <> q).
    { intros E. rewrite E in Hf.
      assert (H0 : Some text0 = None)
        by (transitivity (m !! q); [symmetry; exact Hf | exact Hq]).
      discriminate H0. }
    rewrite lookup_insert_ne by exact Hne. exact Hq.
Qed.

(** X19.  A run of [main] over a list of files creates and deletes no
    file, leaves the files that are not listed as they are, changes a
    listed file only by taking [.js] out in front of quotes, and counts
    at most one change per listed file. *)
Theorem X19_main_only_rewrites_listed_files :
  forall files (m m' : fs) changed changed',
    main_loop files m changed = Some (m', changed') ->
    changed <= changed' <= changed + length files
    /\ (forall q text, m !! q = Some text ->
                   exists text', m' !! q = Some text'
                                 /\ rtc js_removal text text'
                                 /\ (~ In q files -> text' = text))
    /\ (forall q, m !! q = None -> m' !! q = None).
Proof.
  induction files as [|f files IH]; intros m m' changed changed'; simpl.
  - intros [= <- <-]. split; [lia|]. split.
    + intros q text Hq. exists text. split; [exact Hq|].
      split; [apply rtc_refl | reflexivity].
    + auto.
  - destruct (process_file m f) as [[m1 updated]|] eqn:Hstep; [|discriminate].
    intros Hloop. apply IH in Hloop. destruct Hloop as (Hcount & Hsome & Hnone).
    destruct (process_file_step m m1 f updated Hstep) as (Hsome1 & Hnone1).
    split; [destruct updated; lia|]. split.
    + intros q text Hq.
      destruct (Hsome1 q text Hq) as (text1 & Hq1 & Hr1 & Hsame1).
      destruct (Hsome q text1 Hq1) as (text' & Hq' & Hr' & Hsame').
      exists text'. split; [exact Hq'|]. split; [eapply rtc_trans; eassumption|].
      intros Hnot. rewrite Hsame' by tauto. apply Hsame1. intros ->. tauto.
    + intros q Hq. apply Hnone, Hnone1. exact Hq.
Qed.

(** The theorem on a run over one of two files. *)
Lemma X19_main_only_rewrites_listed_files_witness :
  match main [["utils"; "a.ts"]]
             {[ ["utils"; "a.ts"] := "import x from './b.js'";
                ["utils"; "b.ts"] := "import y from './c.js'" ]} with
  | Some (m', changed') =>
      changed' <= 1 /\ m' !! ["utils"; "b.ts"] = Some "import y from './c.js'"
  | None => False
  end.
Proof.
  unfold main.
  destruct (main_loop [["utils"; "a.ts"]] _ 0) as [[m' changed']|] eqn:E.
  - destruct (X19_main_only_rewrites_listed_files _ _ _ _ _ E)
      as (Hcount & Hsome & _).
    split; [simpl in Hcount; lia|].
    destruct (Hsome ["utils"; "b.ts"] "import y from './c.js'" eq_refl)
      as (text' & Hq & _ & Hsame).
    assert (Htext : text' = "import y from './c.js'").
    { apply Hsame. intros [H|[]]. discriminate H. }
    rewrite Htext in Hq. exact Hq.
  - vm_compute in E. discriminate E.
Defined.

End RemoveJsMain.

(** ** migrate_app_js_to_ts.py: files that are not the source *)

Section MigrateSafety.
Import Text Re FS Migrate.

Lemma convert_file_keeps_others (m m' : fs) p dry_run r q content :
  convert_file m p dry_run = (m', r) ->
  q <> p -> m !! q = Some content -> m' !! q = Some content.
Proof.
  unfold convert_file. intros H Hq Hc.
  destruct (m !! p) as [text|]; [|injection H as <- _; exact Hc].
  destruct (with_suffix p (target_extension p text)) as [new_path|];
    [|injection H as <- _; exact Hc].
  destruct (exists_ m new_path) eqn:Hex; [injection H as <- _; exact Hc|].
  destruct dry_run; [injection H as <- _; exact Hc|].
  injection H as <- _.
  assert (Hne : new_path <> q).
  { intros ->. unfold exists_ in Hex. apply bool_decide_eq_false in Hex.
    apply Hex. exists content. exact Hc. }
  rewrite lookup_delete_ne by congruence.
  rewrite lookup_insert_ne by exact Hne. exact Hc.
Qed.

(** X15.  A conversion never overwrites a file: whatever [convert_file]
    does with a path, every other file that existed keeps its content, and
    after a whole run of the main loop every file that existed and is not
    one of the listed files still holds the content it had. *)
Theorem X15_existing_files_are_never_overwritten :
  (forall (m m' : fs) p dry_run r q content,
      convert_file m p dry_run = (m', r) ->
      q <> p -> m !! q = Some content -> m' !! q = Some content)
  /\ (forall dry_run files (m m' : fs) t t' q content,
         main_loop dry_run files m t = Some (m', t') ->
         ~ In q files -> m !! q = Some content -> m' !! q = Some content).
Proof.
  split; [exact convert_file_keeps_others|].
  intros dry_run. induction files as [|f files IH];
    intros m m' t t' q content; simpl.
  - intros [= <- _] _ Hc. exact Hc.
  - intros Hloop Hnot Hc.
    assert (Hqf : q <> f) by (intros ->; apply Hnot; left; reflexivity).
    assert (Hrest : ~ In q files) by (intros H; apply Hnot; right; exact H).
    destruct (negb (endswith (name f) ".js")).
    + exact (IH _ _ _ _ _ _ Hloop Hrest Hc).
    + destruct (convert_file m f dry_run) as [m1 r] eqn:Hconv.
      pose proof (convert_file_keeps_others m m1 f dry_run r q content
                    Hconv Hqf Hc) as Hc1.
      destruct r as [| |old new]; [discriminate|..];
        exact (IH _ _ _ _ _ _ Hloop Hrest Hc1).
Qed.

(** The theorem on a conversion next to another file. *)
Lemma X15_existing_files_are_never_overwritten_witness :
  fst (convert_file {[ ["utils"; "a.js"] := "export {};";
                       ["utils"; "b.ts"] := "export default 1;" ]}
                    ["utils"; "a.js"] false)
  !! ["utils"; "b.ts"] = Some "export default 1;".
Proof.
  destruct X15_existing_files_are_never_overwritten as [H _].
  eapply (H _ _ ["utils"; "a.js"] false).
  - apply surjective_pairing.
  - discriminate.
  - reflexivity.
Defined.

End MigrateSafety.


(** * The rewriter on contents of any number of references *)

(** ** Contents made of import lines *)

Section ImportLines.
Import Text Re FS RemoveJs.

Lemma join_lines_cons (l : string) ls :
  join_lines (l :: ls) = l +:+ continued ls.
Proof.
  destruct ls as [|l' ls]; simpl; [rewrite append_nil_r|]; reflexivity.
Qed.

Lemma stem_js_not_quote stem :
  all_in path_char stem = true -> all_in not_quote (stem +:+ ".js") = true.
Proof.
  intros H. rewrite all_in_append, (all_path_not_quote stem H). reflexivity.
Qed.

(** A match of a reference pattern has the suffix between two quotes. *)
Lemma match_at_suffix_between_quotes gs pre post groups rest :
  reference_pattern gs -> match_at gs post = Some (groups, rest) ->
  suffix_between_quotes (pre +:+ post).
Proof.
  intros (h & t & -> & Hh & Ht) Hm.
  destruct (match_at_reference h t post groups rest Ht Hm)
    as (g1 & g2 & q & c & _ & -> & Hg1 & Hne & Hg2 & Hq & _).
  destruct (Hh g1 Hg1) as (x0 & q0 & -> & Hq0).
  exists (pre +:+ x0), q0, g2, q, (c +:+ rest).
  split; [exact Hq0|]. split; [exact Hq|]. split; [exact Hne|].
  split; [exact Hg2|]. rewrite !append_assoc. reflexivity.
Qed.

Lemma no_match_without_suffix_between_quotes gs text :
  reference_pattern gs -> ~ suffix_between_quotes text -> no_match gs text.
Proof.
  intros Hgs Hn pre post E.
  destruct (match_at gs post) as [[groups rest]|] eqn:Hm; [|reflexivity].
  exfalso. apply Hn. rewrite E.
  apply (match_at_suffix_between_quotes gs pre post groups rest Hgs Hm).
Qed.

(** The plain [from] pattern on a single-quoted reference, whatever
    follows it. *)
Lemma match_at_IMPORT_from_then p rest :
  p <> EmptyString -> all_in path_char p = true ->
  match_at IMPORT_RE ("from '" +:+ p +:+ ".js'" +:+ rest)
  = Some (["from '"; p; ".js"; "'"], rest).
Proof.
  intros Hne Hp.
  assert (Hl : Forall2 lang IMPORT_RE ["from '"; p; ".js"; "'"]).
  { constructor.
    - exists "from", " '". split; [reflexivity|]. split; [reflexivity|].
      exists " ", "'". split; [reflexivity|]. split; [split; [discriminate|reflexivity]|].
      exists "'"%char. split; reflexivity.
    - constructor; [split; assumption|].
      constructor; [reflexivity|].
      constructor; [exists "'"%char; split; reflexivity|]. constructor. }
  destruct (match_at_complete IMPORT_RE _ rest Hl) as [[groups rest'] Hm].
  assert (Etext : join ["from '"; p; ".js"; "'"] +:+ rest
                  = "from '" +:+ p +:+ ".js'" +:+ rest).
  { unfold join. cbn [fold_right]. rewrite append_nil_r, !append_assoc.
    reflexivity. }
  rewrite Etext in Hm. rewrite Hm. f_equal.
  destruct (match_at_reference _ _ _ groups rest' quote_only Hm)
    as (g1 & g2 & q & b & -> & E & Hg1 & Hg2ne & Hg2 & Hq & Ht).
  destruct (from_head_lang g1 Hg1) as (d & q0 & -> & Hdne & Hd & Hq0).
  simpl in Ht. destruct Ht as (q' & [= -> ->] & _).
  assert (E' : "from " +:+ String "'" ((p +:+ ".js") +:+ String "'" rest)
               = ("from" +:+ d) +:+ String q0 ((g2 +:+ ".js") +:+ String q' rest')).
  { rewrite !append_assoc. rewrite !append_assoc in E. exact E. }
  destruct (first_quote_split "from " _ "'"%char q0 _ _ eq_refl eq_refl Hq0 E')
    as [(Hx & -> & E1)|(x' & Hx & _)].
  - symmetry in E1.
    destruct (first_quote_split (p +:+ ".js") _ "'"%char q' _ _
                (stem_js_not_quote p Hp) eq_refl Hq E1)
      as [(Hy & -> & ->)|(y' & Hy & _)].
    + apply append_inv_tail in Hy. subst g2.
      simpl in Hx. injection Hx as ->. reflexivity.
    + pose proof (stem_js_not_quote g2 Hg2) as Hg.
      rewrite Hy, (all_in_not_quote_quote _ "'"%char y' eq_refl) in Hg.
      discriminate Hg.
  - simpl in Hx. injection Hx as ->. simpl in Hd. discriminate Hd.
Qed.

Lemma match_at_IMPORT_other c s :
  Ascii.eqb "f" c = false -> match_at IMPORT_RE (String c s) = None.
Proof.
  intros Hc. unfold match_at, IMPORT_RE.
  cbn [match_groups rmatch drop_prefix]. rewrite Hc. reflexivity.
Qed.

(** The pass of the plain [from] pattern over one import line and what
    follows it. *)
Lemma import_line_pass p rest :
  p <> EmptyString -> all_in path_char p = true ->
  subn IMPORT_RE strip_suffix (import_line p +:+ rest)
  = (import_line_rewritten p +:+ fst (subn IMPORT_RE strip_suffix rest),
     S (snd (subn IMPORT_RE strip_suffix rest))).
Proof.
  intros Hne Hp.
  pose proof (reference_consuming IMPORT_RE
                (patterns_reference IMPORT_RE (or_introl eq_refl))) as Hc.
  assert (E : import_line p +:+ rest
              = "import x " +:+ ("from '" +:+ p +:+ ".js'" +:+ rest)).
  { unfold import_line. rewrite !append_assoc. reflexivity. }
  rewrite E.
  rewrite (subn_skip_prefix IMPORT_RE strip_suffix "import x " Hc _
             (import_x_no_match _)).
  rewrite (subn_unfold IMPORT_RE strip_suffix Hc),
    (match_at_IMPORT_from_then p rest Hne Hp).
  destruct (subn IMPORT_RE strip_suffix rest) as [out n]. cbv iota beta.
  change (strip_suffix ["from '"; p; ".js"; "'"]) with ("from '" +:+ p +:+ "'").
  unfold import_line_rewritten. cbn [fst snd]. rewrite !append_assoc.
  reflexivity.
Qed.

(** The pass of the plain [from] pattern over any number of import
    lines: every line loses its suffix, and the count is the number of
    lines. *)
Lemma import_lines_pass ps :
  Forall plain_path ps ->
  subn IMPORT_RE strip_suffix (join_lines (map import_line ps))
  = (join_lines (map import_line_rewritten ps), length ps).
Proof.
  pose proof (reference_consuming IMPORT_RE
                (patterns_reference IMPORT_RE (or_introl eq_refl))) as Hc.
  induction ps as [|p ps IH]; intros Hps; [reflexivity|].
  inversion Hps as [|? ? (Hne & Hp & _) Hps']; subst.
  cbn [map]. rewrite !join_lines_cons.
  rewrite (import_line_pass p _ Hne Hp).
  destruct ps as [|p' ps]; [reflexivity|].
  unfold continued. cbn [map] in *.
  rewrite (subn_unfold IMPORT_RE strip_suffix Hc),
    (match_at_IMPORT_other newline _ eq_refl).
  rewrite (IH Hps'). reflexivity.
Qed.

(** In rewritten import lines of plain paths the suffix stands nowhere
    between two quotes. *)
Lemma rewritten_lines_without_suffix ps :
  Forall plain_path ps ->
  forall lead, all_in not_quote lead = true ->
  ~ suffix_between_quotes (lead +:+ join_lines (map import_line_rewritten ps)).
Proof.
  induction ps as [|p ps IH]; intros Hps lead Hlead
    (x & q0 & stem & q & z & Hq0 & Hq & Hne & Hstem & E).
  - simpl in E. rewrite append_nil_r in E.
    rewrite E, all_in_not_quote_quote in Hlead by exact Hq0. discriminate Hlead.
  - inversion Hps as [|? ? (Hpne & Hp & Hplain) Hps']; subst.
    cbn [map] in E. rewrite join_lines_cons in E.
    assert (E0 : (lead +:+ "import x from ")
                 +:+ String "'" (p +:+ String "'"
                                   (continued (map import_line_rewritten ps)))
                 = x +:+ String q0 ((stem +:+ ".js") +:+ String q z)).
    { rewrite <- E. unfold import_line_rewritten. rewrite !append_assoc.
      reflexivity. }
    assert (Ha : all_in not_quote (lead +:+ "import x from ") = true).
    { rewrite all_in_append, Hlead. reflexivity. }
    pose proof (all_path_not_quote p Hp) as Hpq.
    pose proof (stem_js_not_quote stem Hstem) as Hsq.
    destruct (first_quote_split _ _ "'"%char q0 _ _ Ha eq_refl Hq0 E0)
      as [(_ & _ & E1)|(x' & _ & E1)].
    + symmetry in E1.
      destruct (first_quote_split p _ "'"%char q _ _ Hpq eq_refl Hq E1)
        as [(Hy & _)|(y' & Hy & _)].
      * apply (Hplain stem Hne). symmetry. exact Hy.
      * rewrite Hy, all_in_not_quote_quote in Hsq by reflexivity.
        discriminate Hsq.
    + destruct (first_quote_split p _ "'"%char q0 _ _ Hpq eq_refl Hq0 E1)
        as [(_ & _ & E2)|(x'' & _ & E2)].
      * destruct ps as [|p' ps]; [destruct stem; discriminate E2|].
        unfold continued in E2. cbn [map] in E2.
        rewrite join_lines_cons in E2.
        assert (E3 : String newline "import x from "
                     +:+ String "'" (p' +:+ String "'"
                                       (continued (map import_line_rewritten ps)))
                     = (stem +:+ ".js") +:+ String q z).
        { rewrite E2. unfold import_line_rewritten. rewrite !append_assoc.
          reflexivity. }
        destruct (first_quote_split (String newline "import x from ") _
                    "'"%char q _ _ eq_refl eq_refl Hq E3)
          as [(Hy & _)|(y' & Hy & _)].
        -- clear - Hy.
           repeat (destruct stem as [|? stem]; simpl in Hy; [discriminate Hy|];
                   injection Hy as _ Hy).
           destruct stem; discriminate Hy.
        -- rewrite Hy, all_in_not_quote_quote in Hsq by reflexivity.
           discriminate Hsq.
      * destruct ps as [|p' ps]; [destruct x''; discriminate E2|].
        apply (IH Hps' (String newline EmptyString) eq_refl).
        exists x'', q0, stem, q, z.
        split; [exact Hq0|]. split; [exact Hq|]. split; [exact Hne|].
        split; [exact Hstem|]. exact E2.
Qed.

Lemma rewritten_lines_no_match ps gs :
  Forall plain_path ps -> In gs patterns ->
  no_match gs (join_lines (map import_line_rewritten ps)).
Proof.
  intros Hps Hin.
  apply no_match_without_suffix_between_quotes;
    [exact (patterns_reference gs Hin)|].
  exact (rewritten_lines_without_suffix ps Hps EmptyString eq_refl).
Qed.

(** A content of import lines with plain paths: every line loses its
    suffix and nothing else changes. *)
Lemma import_lines_rewritten ps :
  ps <> [] -> Forall plain_path ps ->
  process_text (join_lines (map import_line ps))
  = (join_lines (map import_line_rewritten ps), true).
Proof.
  intros Hne Hps. rewrite process_text_passes.
  unfold rewrite_with, patterns. cbn [fold_left].
  assert (Hstep : rewrite_step (join_lines (map import_line ps), false) IMPORT_RE
                  = (join_lines (map import_line_rewritten ps), true)).
  { unfold rewrite_step. rewrite (import_lines_pass ps Hps).
    destruct ps; [congruence | reflexivity]. }
  rewrite Hstep.
  rewrite !rewrite_step_no_match
    by (apply (rewritten_lines_no_match ps _ Hps); unfold patterns; simpl; auto).
  reflexivity.
Qed.

(** A run that returns its input with no update is a run on a text that
    no pattern matches. *)
Lemma rewrite_with_fixed ps : forall text,
  snd (fold_left rewrite_step ps (text, false)) = false ->
  forall gs, In gs ps -> no_match gs text.
Proof.
  induction ps as [|g ps IH]; intros text H gs Hin; [destruct Hin|].
  cbn [fold_left] in H. unfold rewrite_step at 2 in H.
  pose proof (subn_zero g strip_suffix text) as Hz.
  destruct (subn g strip_suffix text) as [new_text count].
  destruct (0 <? count) eqn:Hc; nat_cmp.
  - rewrite rewrite_with_true in H. discriminate H.
  - destruct Hin as [<-|Hin].
    + apply Hz. simpl. lia.
    + apply (IH text H gs Hin).
Qed.

Lemma process_text_fixed text :
  process_text text = (text, false)
  <-> (forall gs, In gs patterns -> no_match gs text).
Proof.
  split; [|apply process_text_no_match].
  intros H. rewrite process_text_passes in H.
  apply rewrite_with_fixed. unfold rewrite_with in H. rewrite H. reflexivity.
Qed.

(** In any content the first match of a pattern is rewritten, and the
    pass goes on behind it. *)
Lemma subn_first_match gs pre s groups rest :
  In gs patterns ->
  (forall a c b, pre = a +:+ String c b -> match_at gs (String c b +:+ s) = None) ->
  match_at gs s = Some (groups, rest) ->
  subn gs strip_suffix (pre +:+ s)
  = (pre +:+ strip_suffix groups +:+ fst (subn gs strip_suffix rest),
     S (snd (subn gs strip_suffix rest))).
Proof.
  intros Hin Hpre Hm.
  pose proof (reference_consuming gs (patterns_reference gs Hin)) as Hc.
  rewrite (subn_skip_prefix gs strip_suffix pre Hc s Hpre).
  rewrite (subn_unfold gs strip_suffix Hc s), Hm.
  destruct (subn gs strip_suffix rest) as [out n]. reflexivity.
Qed.

End ImportLines.

(** ** What the rewriter does to references, and what a second run does *)

Section RewriterClaims.
Import Text Re FS RemoveJs.

(** A path shorter than four characters cannot end with the suffix behind
    a non-empty stem. *)
Lemma short_path_plain p :
  p <> EmptyString -> all_in path_char p = true -> String.length p < 4 ->
  plain_path p.
Proof.
  intros Hne Hp Hlen. split; [exact Hne|]. split; [exact Hp|].
  intros stem Hs E. apply (f_equal String.length) in E.
  rewrite length_append in E. simpl in E.
  destruct stem; [congruence | simpl in E; lia].
Qed.







(** C10.  On [import x from './a.js.js'] the pass of the plain [from]
    pattern takes out one suffix and the pass of the [import ... from]
    pattern, run on what it left, takes out a second one from the same
    reference: it counts one substitution, and the four patterns in order
    end on [./a] where the three others alone end on [./a.js].  On the same
    path the [export ... from], [require] and dynamic [import] references
    lose one suffix only. *)
Theorem C10_import_from_rewritten_twice :
  rewrite_step ("import x from './a.js.js'", false) IMPORT_RE
  = ("import x from './a.js'", true)
  /\ subn EXPORT_RE strip_suffix "import x from './a.js'"
     = ("import x from './a'", 1)
  /\ counts patterns "import x from './a.js.js'" = [1; 1; 0; 0]
  /\ rewrite_with patterns "import x from './a.js.js'"
     = ("import x from './a'", true)
  /\ rewrite_with patterns_without_export "import x from './a.js.js'"
     = ("import x from './a.js'", true)
  /\ process_text "import x from './a.js.js'" = ("import x from './a'", true)
  /\ process_text "export * from './a.js.js'" = ("export * from './a.js'", true)
  /\ process_text "const y = require('./a.js.js')"
     = ("const y = require('./a.js')", true)
  /\ process_text "const z = import('./a.js.js')"
     = ("const z = import('./a.js')", true).
Proof. repeat split; vm_compute; reflexivity. Qed.

End RewriterClaims.
